(** * Request-data resolution of [rotkehlchen/api/v1/resources.py]

    The three composite location loaders registered with the webargs parser
    ([json_and_view_args], [json_and_query], [json_and_query_and_view_args])
    and their helper [_combine_data_and_view_args], embedded over an explicit
    store of Python dict objects, followed by the properties of the merged
    payload. *)

From stdpp Require Import base option list strings gmap fin_maps fin_map_dom.
From Stdlib Require Import ZArith Ascii.

(** ** Data model *)

(** Raw values as they arrive in a request: decoded JSON, or the strings of a
    query string and of path segments. *)
#[warnings="-register-all"]
Inductive raw :=
  | RNull
  | RBool (b : bool)
  | RInt (n : Z)
  | RStr (s : string)
  | RList (l : list raw).

(** A Python [dict] with [str] keys. *)
Abbreviation Dict := (gmap string raw).

(** werkzeug's [ImmutableMultiDict] behind [request.args]: the ordered,
    multi-valued key/value pairs of the query string. *)
Definition MultiDict := list (string * string).

(** Modelled from the spec: the typed domain values of ValidatedArguments
    (section 3); the field classes of [encoding.py] that produce them are
    missing. *)
Inductive typed :=
  | VInt (n : Z)
  | VBool (b : bool)
  | VText (s : string)
  | VEnum (member : string).

(** Modelled from the spec: the target type of a schema field (section 3);
    the field classes of [encoding.py] are missing.  An enum carries its
    table from raw token to member name. *)
Inductive ftype :=
  | TInt
  | TBool
  | TText
  | TEnum (members : list (string * string)).

(** Modelled from the spec: one entry of a SchemaDescriptor (section 3):
    field name, target type, required?, default. *)
Record field := {
  f_name : string;
  f_type : ftype;
  f_required : bool;
  f_default : option typed;
}.

(** Modelled from the spec: a SchemaDescriptor (section 3), the ordered
    declared fields of a marshmallow [Schema] (its class is missing).  The
    loaders only pass it along. *)
Definition Schema := list field.

(** ** The store of dict objects

    Python hands dicts around by reference and
    [_combine_data_and_view_args] assigns into one of them, so dict objects
    live in a store and values refer to them by location. *)
Abbreviation loc := nat.
Abbreviation heap := (list Dict).

(** What a [MultiDictProxy] wraps: a dict object, or the immutable multi-dict
    of the query string. *)
Inductive container :=
  | DictAt (l : loc)
  | Multi (q : MultiDict).

(** The values a loader handles, other than the sentinel [missing] (which is
    [None] of [option pyval]): a plain dict object, or
    [MultiDictProxy(data, schema)]. *)
Inductive pyval :=
  | Plain (l : loc)
  | MultiDictProxy (data : container) (schema : Schema).

(** Computations over the store; [None] is a raised exception. *)
Definition M (A : Type) : Type := heap → option (A * heap).

#[global] Instance M_ret : MRet M := λ A a h, Some (a, h).
#[global] Instance M_bind : MBind M := λ A B k m h,
  match m h with
  | Some (a, h') => k a h'
  | None => None
  end.
Definition raise {A} : M A := λ _, None.

(** [d = h[l]]: read a dict object. *)
Definition getdict (l : loc) : M Dict :=
  λ h, match h !! l with
       | Some d => Some (d, h)
       | None => None
       end.

(** [obj[key] = value] on the dict object at [l], in place. *)
Definition setitem (l : loc) (key : string) (value : raw) : M unit :=
  λ h, match h !! l with
       | Some d => Some (tt, <[l := <[key := value]> d]> h)
       | None => None
       end.

(** A new dict object. *)
Definition new_dict (d : Dict) : M loc :=
  λ h, Some (length h, h ++ [d]).

(** [for key, value in items: body(key, value)]. *)
Fixpoint for_items (items : list (string * raw)) (body : string → raw → M unit)
  : M unit :=
  match items with
  | [] => mret tt
  | (key, value) :: rest => body key value;; for_items rest body
  end.

(** werkzeug's [MultiDict.to_dict()]: a flat dict keeping, for every key, its
    first value. *)
Definition to_dict (q : MultiDict) : Dict :=
  foldr (λ kv acc, <[kv.1 := RStr kv.2]> acc) ∅ q.

(** [data == {}].  A [MultiDictProxy] compares its wrapped container. *)
Definition eq_empty (data : pyval) : M bool :=
  match data with
  | Plain l | MultiDictProxy (DictAt l) _ =>
      d ← getdict l; mret (bool_decide (d = ∅))
  | MultiDictProxy (Multi q) _ => mret (bool_decide (q = []))
  end.

(** [data.to_dict()] on a [MultiDictProxy]: attribute access is forwarded to
    the wrapped container; a multi-dict answers with a new flat dict, a plain
    dict has no such method. *)
Definition proxy_to_dict (c : container) : M loc :=
  match c with
  | Multi q => new_dict (to_dict q)
  | DictAt _ => raise
  end.

(** ** The request

    The location readers [parser.load_json], [parser.load_querystring] and
    [parser.load_view_args] belong to webargs.  A request is modelled by what
    they find: the parsed body object, the query multi-dict, and the dict of
    bound path segments, each possibly [missing]. *)
Record Request := {
  json : option loc;
  args : option MultiDict;
  view_args : option loc;
}.

Definition load_json (request : Request) (schema : Schema) : M (option pyval) :=
  mret (Plain <$> json request).

Definition load_querystring (request : Request) (schema : Schema)
  : M (option pyval) :=
  mret ((λ q, MultiDictProxy (Multi q) schema) <$> args request).

Definition load_view_args (request : Request) (schema : Schema)
  : M (option loc) :=
  mret (view_args request).

(** ** The loaders of [resources.py] *)

Definition _combine_data_and_view_args
    (data : pyval) (view_args : option loc) (schema : Schema) : M pyval :=
  match view_args with
  | Some va =>
      empty ← eq_empty data;
      if empty : bool then mret (MultiDictProxy (DictAt va) schema)
      else
        all_data ← match data with
                    | MultiDictProxy c _ => proxy_to_dict c
                    | Plain l => mret l
                    end;
        items ← getdict va;
        for_items (map_to_list items) (setitem all_data);;
        mret (MultiDictProxy (DictAt all_data) schema)
  | None => mret data
  end.

Definition load_json_viewargs_data (request : Request) (schema : Schema)
  : M (option pyval) :=
  view_args ← load_view_args request schema;
  data ← load_json request schema;
  match data with
  | None => mret None
  | Some data =>
      data ← _combine_data_and_view_args data view_args schema;
      mret (Some data)
  end.

Definition load_json_query_data (request : Request) (schema : Schema)
  : M (option pyval) :=
  data ← load_json request schema;
  match data with
  | Some data => mret (Some data)
  | None => load_querystring request schema
  end.

Definition load_json_query_viewargs_data (request : Request) (schema : Schema)
  : M (option pyval) :=
  view_args ← load_view_args request schema;
  data ← load_json request schema;
  data ← match data with
          | None => load_querystring request schema
          | Some data => mret (Some data)
          end;
  match data with
  | None => mret None
  | Some data =>
      data ← _combine_data_and_view_args data view_args schema;
      mret (Some data)
  end.

(** The locations registered with [parser.location_loader]. *)
Inductive location :=
  | json_and_view_args
  | json_and_query
  | json_and_query_and_view_args.

Definition loader (place : location) : Request → Schema → M (option pyval) :=
  match place with
  | json_and_view_args => load_json_viewargs_data
  | json_and_query => load_json_query_data
  | json_and_query_and_view_args => load_json_query_viewargs_data
  end.

(** ** Reading results back *)

(** The mapping a loaded value denotes in store [h].  A proxy over the query
    multi-dict is read as the merge reads it, by [to_dict]. *)
Definition payload (h : heap) (v : pyval) : option Dict :=
  match v with
  | Plain l | MultiDictProxy (DictAt l) _ => h !! l
  | MultiDictProxy (Multi q) _ => Some (to_dict q)
  end.

(** What a loader run amounts to. *)
Inductive loaded :=
  | Raised
  | Absent
  | Mapping (d : Dict).

Definition outcome (m : M (option pyval)) (h : heap) : loaded :=
  match m h with
  | None => Raised
  | Some (None, _) => Absent
  | Some (Some v, h') =>
      match payload h' v with
      | Some d => Mapping d
      | None => Raised
      end
  end.

(** The store a run leaves behind (the initial one if it raised). *)
Definition store_after {A} (m : M A) (h : heap) : heap :=
  match m h with
  | Some (_, h') => h'
  | None => h
  end.

(** Contents of the three sources of a request; [None] is Absent. *)
Definition body (h : heap) (r : Request) : option Dict := json r ≫= (h !!.).
Definition query (r : Request) : option Dict := to_dict <$> args r.
Definition path (h : heap) (r : Request) : option Dict := view_args r ≫= (h !!.).

(** Every reference held by the request points into the store. *)
Definition valid_ref (h : heap) (o : option loc) : bool :=
  match o with
  | Some l => bool_decide (l < length h)
  | None => true
  end.

Definition valid_request (h : heap) (r : Request) : bool :=
  valid_ref h (json r) && valid_ref h (view_args r).

(** ** Validation

    marshmallow's [Schema.load] and the field definitions of
    [rotkehlchen/api/v1/encoding.py] are not part of [resources.py]. *)

(** Modelled from the spec: the causes a ValidationError reports (section
    4.3); marshmallow's error messages are missing. *)
Inductive cause :=
  | Missing_required
  | Not_coercible
  | Unknown_field.

(** Modelled from the spec: a ValidationError carries the offending field
    names, each with its cause (section 4.3). *)
Definition ValidationError := list (string * cause).

(** Modelled from the spec: ValidatedArguments, a mapping from field name to
    typed value (section 3). *)
Definition ValidatedArguments := gmap string typed.

(** Modelled from the spec: reading of decimal digits, for the integer
    coercion of section 4.3. *)

Definition digit (c : ascii) : option Z :=
  let n := nat_of_ascii c in
  if (48 <=? n)%nat && (n <=? 57)%nat then Some (Z.of_nat (n - 48)) else None.

Fixpoint digits (s : string) (acc : Z) : option Z :=
  match s with
  | EmptyString => Some acc
  | String c s' => d ← digit c; digits s' (10 * acc + d)%Z
  end.

(** Modelled from the spec: integer epoch seconds and other integers given
    as strings are decimal digits, optionally signed (section 4.3). *)
Definition parse_int (s : string) : option Z :=
  match s with
  | EmptyString => None
  | String "-" EmptyString => None
  | String "-" s' => Z.opp <$> digits s' 0
  | _ => digits s 0
  end.

(** Modelled from the spec: boolean tokens are compared whatever their case
    (section 4.3). *)
Definition lower (c : ascii) : ascii :=
  let n := nat_of_ascii c in
  if (65 <=? n)%nat && (n <=? 90)%nat then ascii_of_nat (n + 32) else c.

Fixpoint lowercase (s : string) : string :=
  match s with
  | EmptyString => EmptyString
  | String c s' => String (lower c) (lowercase s')
  end.

(** Modelled from the spec: the small sets of truthy and falsy tokens of
    section 4.3 (marshmallow's own sets are missing). *)
Definition truthy : list string := ["true"; "t"; "yes"; "y"; "on"; "1"].
Definition falsy : list string := ["false"; "f"; "no"; "n"; "off"; "0"].

Definition parse_bool (s : string) : option bool :=
  let t := lowercase s in
  if bool_decide (t ∈ truthy) then Some true
  else if bool_decide (t ∈ falsy) then Some false
  else None.

(** Modelled from the spec: enum membership (section 4.3). *)
Fixpoint member_of (members : list (string * string)) (token : string)
  : option string :=
  match members with
  | [] => None
  | (t, m) :: rest => if String.eqb t token then Some m else member_of rest token
  end.

(** Modelled from the spec: per-type coercion of section 4.3 (the field
    classes of [encoding.py] are missing).  Integers accept integer values
    and decimal strings, booleans a small set of truthy and falsy tokens
    whatever their case, enums the tokens of their table. *)
Definition coerce (t : ftype) (v : raw) : option typed :=
  match t, v with
  | TInt, RInt n => Some (VInt n)
  | TInt, RStr s => VInt <$> parse_int s
  | TBool, RBool b => Some (VBool b)
  | TBool, RStr s => VBool <$> parse_bool s
  | TText, RStr s => Some (VText s)
  | TEnum members, RStr s => VEnum <$> member_of members s
  | _, _ => None
  end.

(** Modelled from the spec: one declared field against the payload (section
    4.3): an error, or the typed value (the default, if any, when an optional
    field is not given). *)
Definition check (p : Dict) (f : field)
  : (string * cause) + option (string * typed) :=
  match p !! f_name f with
  | Some v =>
      match coerce (f_type f) v with
      | Some x => inr (Some (f_name f, x))
      | None => inl (f_name f, Not_coercible)
      end
  | None =>
      if f_required f then inl (f_name f, Missing_required)
      else inr ((λ x, (f_name f, x)) <$> f_default f)
  end.

Definition failure {A B} (c : A + B) : option A :=
  match c with
  | inl e => Some e
  | inr _ => None
  end.

Definition success {A B} (c : A + option B) : option B :=
  match c with
  | inl _ => None
  | inr x => x
  end.

(** Modelled from the spec: payload keys that the schema does not declare are
    rejected (section 4.3). *)
Definition unknown (s : Schema) (p : Dict) : list (string * cause) :=
  (λ k, (k, Unknown_field))
    <$> filter (λ k, k ∉ f_name <$> s) (map_to_list p).*1.

(** Modelled from the spec: the Validator of section 4.3,
    [validate(MergedPayload, SchemaDescriptor)] (marshmallow's [Schema.load]
    is missing).  It fails, naming the offending fields, when a required
    field is missing, a value cannot be coerced, or the payload has a key the
    schema does not declare; otherwise it yields the typed arguments, with
    defaults for optional fields not given. *)
Definition validate (s : Schema) (p : Dict)
  : ValidationError + ValidatedArguments :=
  let checks := check p <$> s in
  match unknown s p ++ omap failure checks with
  | [] => inr (list_to_map (omap success checks))
  | errs => inl errs
  end.

(** Modelled from the spec: what the Validator is run on (webargs' glue
    between loader and schema is missing).  Section 4.2 starts a merge from
    the empty mapping when a source is Absent, so an Absent result is
    validated as the empty mapping; a raising loader has no result. *)
Definition validate_loaded (s : Schema) (l : loaded)
  : option (ValidationError + ValidatedArguments) :=
  match l with
  | Mapping d => Some (validate s d)
  | Absent => Some (validate s ∅)
  | Raised => None
  end.

(** ** Closed forms

    What the code computes, as functions of the contents of the three
    sources. *)

(** Assigning every item of the path mapping into [d]. *)
Definition merge (p : option Dict) (d : Dict) : Dict :=
  match p with
  | Some va => va ∪ d
  | None => d
  end.

Definition merged (data p : option Dict) : loaded :=
  match data with
  | Some d => Mapping (merge p d)
  | None => Absent
  end.

(** The body if there is one, else the query string. *)
Definition either (b q : option Dict) : option Dict :=
  match b with
  | Some _ => b
  | None => q
  end.

Definition resolve (place : location) (b q p : option Dict) : loaded :=
  match place with
  | json_and_view_args => merged b p
  | json_and_query => merged (either b q) None
  | json_and_query_and_view_args => merged (either b q) p
  end.

(** Content of the body object once the loader has run. *)
Definition body_after (place : location) (b p : option Dict) : option Dict :=
  match place with
  | json_and_query => b
  | _ => (λ d, if decide (d = ∅) then d else merge p d) <$> b
  end.

Definition result_payload (h : heap) (v : option pyval) : loaded :=
  match v with
  | None => Absent
  | Some v =>
      match payload h v with
      | Some d => Mapping d
      | None => Raised
      end
  end.

(** ** Dispatch

    The decorators [use_kwargs] (webargs) and [resource_parser.use_kwargs]
    ([rotkehlchen/api/v1/parser.py]) bind a schema, a location and a handler;
    neither is part of [resources.py]. *)

(** What [BlockchainsAccountsResource] names from modules that are not part
    of [resources.py]: the chain connector and the schema classes of
    [encoding.py] that take the connector. *)
Class Externals := {
  EthereumManager : Type;
  BlockchainAccountsPutSchema : EthereumManager → Schema;
  BlockchainAccountsPatchSchema : EthereumManager → Schema;
  BlockchainAccountsDeleteSchema : EthereumManager → Schema;
}.

(** The attribute chain [rest_api.rotkehlchen.chain_manager.ethereum]. *)
Record ChainManager `{Externals} := { ethereum : EthereumManager }.

(** Modelled from the spec: the chain manager is the runtime dependency of
    section 7, which may not be configured yet; reading it then fails
    ([None]). *)
Record Rotkehlchen `{Externals} := { chain_manager : option ChainManager }.
Record RestAPI `{Externals} := { rotkehlchen : Rotkehlchen }.

(** [BaseResource]: a resource holds the facade. *)
Record BaseResource `{Externals} := { rest_api : RestAPI }.

Module BlockchainsAccountsResource.

Definition make_put_schema `{Externals} (self : BaseResource)
  : option Schema :=
  cm ← chain_manager (rotkehlchen (rest_api self));
  Some (BlockchainAccountsPutSchema (ethereum cm)).

Definition make_patch_schema `{Externals} (self : BaseResource)
  : option Schema :=
  cm ← chain_manager (rotkehlchen (rest_api self));
  Some (BlockchainAccountsPatchSchema (ethereum cm)).

Definition make_delete_schema `{Externals} (self : BaseResource)
  : option Schema :=
  cm ← chain_manager (rotkehlchen (rest_api self));
  Some (BlockchainAccountsDeleteSchema (ethereum cm)).

End BlockchainsAccountsResource.

(** Modelled from the spec: what the Endpoint Dispatcher binds for one verb
    of a resource of type [R] (section 4.5; the decorators are missing): a
    schema or a factory taking the resource (it fails when its dependency is
    not available), a location, and the handler. *)
Record binding (R Resp : Type) := {
  argmap : Schema + (R → option Schema);
  at_location : location;
  handler : R → ValidatedArguments → Resp;
}.
Arguments argmap {R Resp} _.
Arguments at_location {R Resp} _.
Arguments handler {R Resp} _ _ _.

(** Modelled from the spec: the steps of one dispatch (section 4.5). *)
Inductive event :=
  | Schema_built (s : Schema)
  | Loader_run (place : location)
  | Validator_run (s : Schema)
  | Handler_called (kwargs : ValidatedArguments).

(** Modelled from the spec: how a dispatch ends (sections 4.5 and 7): the
    handler's result, a validation error, an unavailable dependency; a
    raising loader has no reply of its own. *)
Inductive reply (Resp : Type) :=
  | Returned (resp : Resp)
  | Rejected (e : ValidationError)
  | DependencyUnavailable
  | Crashed.
Arguments Returned {Resp} _.
Arguments Rejected {Resp} _.
Arguments DependencyUnavailable {Resp}.
Arguments Crashed {Resp}.

(** What a dispatch works on: the dict objects, and the record of the steps
    taken so far. *)
Record process := {
  objects : heap;
  trace : list event;
}.

(** Dispatch steps: computations over the process. *)
Definition D (A : Type) : Type := process → A * process.

#[global] Instance D_ret : MRet D := λ A a p, (a, p).
#[global] Instance D_bind : MBind D := λ A B k m p,
  match m p with
  | (a, p') => k a p'
  end.

(** A step records itself. *)
Definition emit (e : event) : D unit :=
  λ p, (tt, {| objects := objects p; trace := trace p ++ [e] |}).

Definition start (h : heap) : process := {| objects := h; trace := [] |}.

(** The schema of a binding for a resource, if it can be had. *)
Definition schema_for {R Resp} (b : binding R Resp) (self : R)
  : option Schema :=
  match argmap b with
  | inl s => Some s
  | inr make => make self
  end.

(** Modelled from the spec: schema resolution (section 4.4).  A static schema
    is at hand; a factory is invoked with the resource, and the schema it
    builds is the one used from then on. *)
Definition resolve_schema {R Resp} (b : binding R Resp) (self : R)
  : D (option Schema) :=
  match argmap b with
  | inl s => mret (Some s)
  | inr make =>
      match make self with
      | Some s => emit (Schema_built s);; mret (Some s)
      | None => mret None
      end
  end.

(** The loader registered for the location, run on the process's dict
    objects: what it loads, and the objects as it leaves them. *)
Definition load (place : location) (request : Request) (schema : Schema)
  : D loaded :=
  λ p, (outcome (loader place request schema) (objects p),
        {| objects := store_after (loader place request schema) (objects p);
           trace := trace p |}).

(** Modelled from the spec: the loader step (section 4.5). *)
Definition run_loader (place : location) (request : Request) (schema : Schema)
  : D loaded :=
  emit (Loader_run place);;
  load place request schema.

(** Modelled from the spec: the Validator step (section 4.5), on what the
    loader produced. *)
Definition run_validator (schema : Schema) (l : loaded)
  : D (option (ValidationError + ValidatedArguments)) :=
  match validate_loaded schema l with
  | Some v => emit (Validator_run schema);; mret (Some v)
  | None => mret None
  end.

(** Modelled from the spec: the handler step (section 4.5). *)
Definition call_handler {R Resp} (b : binding R Resp) (self : R)
    (kwargs : ValidatedArguments) : D Resp :=
  emit (Handler_called kwargs);;
  mret (handler b self kwargs).

(** Modelled from the spec: the Endpoint Dispatcher of sections 4.4, 4.5 and
    7 ([use_kwargs] of webargs and of [rotkehlchen/api/v1/parser.py] are
    missing).  On each call: resolve the schema, run the bound loader, run
    the Validator, and invoke the handler with the validated arguments.  A
    factory whose dependency is not available ends the dispatch at once; a
    validation error is the reply and the handler is not invoked. *)
Definition dispatch {R Resp} (b : binding R Resp) (self : R)
    (request : Request) : D (reply Resp) :=
  schema ← resolve_schema b self;
  match schema with
  | None => mret DependencyUnavailable
  | Some schema =>
      l ← run_loader (at_location b) request schema;
      v ← run_validator schema l;
      match v with
      | None => mret Crashed
      | Some (inl e) => mret (Rejected e)
      | Some (inr kwargs) =>
          resp ← call_handler b self kwargs;
          mret (Returned resp)
      end
  end.

(** The three verbs of [BlockchainsAccountsResource] decorated with
    [resource_parser.use_kwargs]: each passes its factory and the location
    [json_and_view_args].  The handler is whatever the verb is bound to. *)
Inductive verb := PUT | PATCH | DELETE.

Definition blockchains_accounts `{Externals} {Resp} (v : verb)
    (handler : BaseResource → ValidatedArguments → Resp)
  : binding BaseResource Resp :=
  match v with
  | PUT =>
      {| argmap := inr BlockchainsAccountsResource.make_put_schema;
         at_location := json_and_view_args;
         handler := handler |}
  | PATCH =>
      {| argmap := inr BlockchainsAccountsResource.make_patch_schema;
         at_location := json_and_view_args;
         handler := handler |}
  | DELETE =>
      {| argmap := inr BlockchainsAccountsResource.make_delete_schema;
         at_location := json_and_view_args;
         handler := handler |}
  end.

Definition schema_class `{Externals} (v : verb) : EthereumManager → Schema :=
  match v with
  | PUT => BlockchainAccountsPutSchema
  | PATCH => BlockchainAccountsPatchSchema
  | DELETE => BlockchainAccountsDeleteSchema
  end.

Definition built_schemas (l : list event) : list Schema :=
  omap (λ e, match e with Schema_built s => Some s | _ => None end) l.

Definition handler_calls (l : list event) : list ValidatedArguments :=
  omap (λ e, match e with Handler_called a => Some a | _ => None end) l.

(** ** Vocabulary of the properties *)

Inductive source := Body | Query | Path.

Definition content (h : heap) (r : Request) (src : source) : option Dict :=
  match src with
  | Body => body h r
  | Query => query r
  | Path => path h r
  end.

(** The value a source gives to field [k], if it supplies it. *)
Definition value_in (src : option Dict) (k : string) : option raw :=
  src ≫= (.!! k).

(** The value the loaded payload gives to field [k]. *)
Definition field_of (l : loaded) (k : string) : option raw :=
  match l with
  | Mapping d => d !! k
  | _ => None
  end.

(** The sources each location reads, highest precedence first, as the code
    orders them. *)
Definition precedence (place : location) : list source :=
  match place with
  | json_and_view_args => [Path; Body]
  | json_and_query => [Body; Query]
  | json_and_query_and_view_args => [Path; Body; Query]
  end.

(** The first source of [srcs] that supplies [k]. *)
Fixpoint highest (h : heap) (r : Request) (k : string) (srcs : list source)
  : option source :=
  match srcs with
  | [] => None
  | src :: rest =>
      if value_in (content h r src) k is Some _ then Some src
      else highest h r k rest
  end.

(** The payload carries every field of every source with that source's
    value. *)
Definition carries_every_source (h : heap) (r : Request) (l : loaded) : Prop :=
  ∃ m, l = Mapping m
       ∧ ∀ src k x, value_in (content h r src) k = Some x → m !! k = Some x.

(** The mapping bound to [data] when a loader reaches the merge. *)
Definition data_of (place : location) (h : heap) (r : Request) : option Dict :=
  match place with
  | json_and_view_args => body h r
  | _ => either (body h r) (query r)
  end.

(** The same request with another query string. *)
Definition with_args (r : Request) (a : option MultiDict) : Request :=
  {| json := json r; args := a; view_args := view_args r |}.

(** ** Sample requests *)

(** Field [k] in both body and query string. *)
Definition overlap_store : heap := [ {[ "k" := RInt 1 ]} ].
Definition overlap_request : Request :=
  {| json := Some 0; args := Some [("k", "2")]; view_args := None |}.

(** Field [k] in body, query string and path. *)
Definition triple_store : heap :=
  [ {[ "k" := RInt 1 ]}; {[ "k" := RStr "3" ]} ].
Definition triple_request : Request :=
  {| json := Some 0; args := Some [("k", "2")]; view_args := Some 1 |}.

(** Three disjoint fields: [a] in the body, [b] in the query string, [c] in
    the path. *)
Definition split_store : heap := [ {[ "a" := RInt 1 ]}; {[ "c" := RStr "3" ]} ].
Definition split_request : Request :=
  {| json := Some 0; args := Some [("b", "2")]; view_args := Some 1 |}.

(** No body; [blockchain] bound by the route. *)
Definition path_only_store : heap := [ {[ "blockchain" := RStr "ETH" ]} ].
Definition path_only_request : Request :=
  {| json := None; args := Some []; view_args := Some 0 |}.

(** Body [{}]; [blockchain] bound by the route. *)
Definition empty_body_store : heap := [ ∅; {[ "blockchain" := RStr "ETH" ]} ].
Definition empty_body_request : Request :=
  {| json := Some 0; args := Some []; view_args := Some 1 |}.

(** The time-range scenario: its schema, its query string, and the request
    with body [{}] and with no body at all. *)
Definition timerange_schema : Schema := [
  {| f_name := "from_timestamp"; f_type := TInt;
     f_required := true; f_default := None |};
  {| f_name := "to_timestamp"; f_type := TInt;
     f_required := true; f_default := None |};
  {| f_name := "location";
     f_type := TEnum [("kraken", "KRAKEN"); ("binance", "BINANCE")];
     f_required := true; f_default := None |};
  {| f_name := "async_query"; f_type := TBool;
     f_required := false; f_default := Some (VBool false) |} ].

Definition timerange_query : MultiDict :=
  [("from_timestamp", "0"); ("to_timestamp", "100"); ("location", "binance")].

Definition timerange_arguments : ValidatedArguments :=
  {[ "from_timestamp" := VInt 0; "to_timestamp" := VInt 100;
     "location" := VEnum "BINANCE"; "async_query" := VBool false ]}.

Definition timerange_empty_body : Request :=
  {| json := Some 0; args := Some timerange_query; view_args := None |}.
Definition timerange_no_body : Request :=
  {| json := None; args := Some timerange_query; view_args := None |}.

(** A process whose connector is the node [node]: account schemas require a
    [blockchain] and, for the connector's network, [accounts]. *)
#[local] Instance sample_externals : Externals := {|
  EthereumManager := string;
  BlockchainAccountsPutSchema node := [
    {| f_name := "blockchain"; f_type := TEnum [("ETH", "ETH"); ("BTC", "BTC")];
       f_required := true; f_default := None |};
    {| f_name := "accounts"; f_type := TEnum [(node, "checksummed")];
       f_required := true; f_default := None |};
    {| f_name := "async_query"; f_type := TBool;
       f_required := false; f_default := Some (VBool false) |} ];
  BlockchainAccountsPatchSchema node := [
    {| f_name := "blockchain"; f_type := TEnum [("ETH", "ETH"); ("BTC", "BTC")];
       f_required := true; f_default := None |};
    {| f_name := "accounts"; f_type := TEnum [(node, "checksummed")];
       f_required := true; f_default := None |} ];
  BlockchainAccountsDeleteSchema node := [
    {| f_name := "blockchain"; f_type := TEnum [("ETH", "ETH"); ("BTC", "BTC")];
       f_required := true; f_default := None |};
    {| f_name := "accounts"; f_type := TText;
       f_required := true; f_default := None |};
    {| f_name := "async_query"; f_type := TBool;
       f_required := false; f_default := Some (VBool false) |} ];
|}.

Definition sample_put_schema (node : string) : Schema :=
  @BlockchainAccountsPutSchema sample_externals node.

Definition sample_resource (node : option string) : BaseResource :=
  {| rest_api := {|
       rotkehlchen := {|
         chain_manager := (λ n, {| ethereum := n |}) <$> node |} |} |}.

(** A handler that hands its keyword arguments back. *)
Definition echo {R} (self : R) (kwargs : ValidatedArguments)
  : ValidatedArguments := kwargs.

(** A [PUT] on [/blockchains/ETH] with body [{"accounts": "0xabc"}]. *)
Definition accounts_store : heap :=
  [ {[ "accounts" := RStr "0xabc" ]}; {[ "blockchain" := RStr "ETH" ]} ].
Definition accounts_request : Request :=
  {| json := Some 0; args := Some []; view_args := Some 1 |}.

(** A time-range endpoint on [json_and_query] with a static schema. *)
Definition timerange_binding : binding unit ValidatedArguments :=
  {| argmap := inl timerange_schema;
     at_location := json_and_query;
     handler := echo |}.

Definition location_field : field :=
  {| f_name := "location";
     f_type := TEnum [("kraken", "KRAKEN"); ("binance", "BINANCE")];
     f_required := true; f_default := None |}.

(** A time-range query whose [location] is bound by the route only, which
    [json_and_query] does not read. *)
Definition location_in_path_store : heap := [ {[ "location" := RStr "binance" ]} ].
Definition location_in_path_request : Request :=
  {| json := None;
     args := Some [("from_timestamp", "0"); ("to_timestamp", "100")];
     view_args := Some 0 |}.

(** ** Handlers with logic of their own

    Most handlers of [resources.py] pass their keyword arguments to one
    facade method.  Three do more: [UsersByNameResource.patch] chooses the
    method, [BlockchainsAccountsResource.put] and [patch] repack the account
    entries, and [AssetIconsResource.get] reads two request headers. *)

(** What evaluating a handler body ends in: a value, or one of the two
    exceptions these bodies can raise. *)
Inductive pyresult (A : Type) :=
  | Ok (a : A)
  | KeyError (key : string)
  | AssertionError (msg : string).
Arguments Ok {A} _.
Arguments KeyError {A} _.
Arguments AssertionError {A} _.

#[global] Instance pyresult_ret : MRet pyresult := λ A a, Ok a.
#[global] Instance pyresult_bind : MBind pyresult := λ A B k m,
  match m with
  | Ok a => k a
  | KeyError key => KeyError key
  | AssertionError msg => AssertionError msg
  end.

(** [BlockchainAccountData], built with three keyword arguments. *)
Record BlockchainAccountData := {
  address : raw;
  label : raw;
  tags : raw;
}.

(** The call into the facade a handler returns the result of.  Arguments are
    handed over as they are; enum and asset values are identified by name. *)
Inductive facade_call :=
  | Call_add_blockchain_accounts
      (blockchain : string) (account_data : list BlockchainAccountData)
      (async_query : bool)
  | Call_edit_blockchain_accounts
      (blockchain : string) (account_data : list BlockchainAccountData)
  | Call_user_set_premium_credentials (name api_key api_secret : string)
  | Call_user_login (name password sync_approval : string)
  | Call_user_logout (name : string)
  | Call_get_asset_icon (asset size : string) (match_header : option string).

(** [entry[key]]. *)
Definition getitem (entry : Dict) (key : string) : pyresult raw :=
  match entry !! key with
  | Some v => Ok v
  | None => KeyError key
  end.

Module BlockchainsAccountsBodies.

(** [BlockchainAccountData(address=entry['address'], label=entry['label'],
    tags=entry['tags'])]: the subscripts are evaluated in this order. *)
Definition entry_data (entry : Dict) : pyresult BlockchainAccountData :=
  a ← getitem entry "address";
  l ← getitem entry "label";
  t ← getitem entry "tags";
  mret {| address := a; label := l; tags := t |}.

(** [[BlockchainAccountData(...) for entry in accounts]]. *)
Fixpoint account_data (accounts : list Dict)
  : pyresult (list BlockchainAccountData) :=
  match accounts with
  | [] => mret []
  | entry :: rest =>
      d ← entry_data entry;
      ds ← account_data rest;
      mret (d :: ds)
  end.

Definition put (blockchain : string) (accounts : list Dict)
    (async_query : bool) : pyresult facade_call :=
  ds ← account_data accounts;
  mret (Call_add_blockchain_accounts blockchain ds async_query).

Definition patch (blockchain : string) (accounts : list Dict)
  : pyresult facade_call :=
  ds ← account_data accounts;
  mret (Call_edit_blockchain_accounts blockchain ds).

End BlockchainsAccountsBodies.

Module UsersByNameResource.

Definition patch (action : option string) (name : string)
    (password : option string) (sync_approval : string)
    (premium_api_key premium_api_secret : string) : pyresult facade_call :=
  match action with
  | None =>
      Ok (Call_user_set_premium_credentials name premium_api_key
            premium_api_secret)
  | Some action =>
      if String.eqb action "login" then
        match password with
        | None =>
            AssertionError
              "Marshmallow validation should not let password=None here"
        | Some password => Ok (Call_user_login name password sync_approval)
        end
      else Ok (Call_user_logout name)
  end.

End UsersByNameResource.

(** The two headers [AssetIconsResource.get] asks [flask_request.headers]
    for; [None] when [headers.get(..., None)] finds none. *)
Record Headers := {
  If_Match : option string;
  If_None_Match : option string;
}.

(** Python truth of an optional string: [None] and [''] are false. *)
Definition truth (o : option string) : bool :=
  match o with
  | Some s => negb (String.eqb s "")
  | None => false
  end.

(** [s[1:-1]]. *)
Definition slice_1_m1 (s : string) : string :=
  String.substring 1 (String.length s - 2) s.

Module AssetIconsResource.

Definition get (headers : Headers) (asset size : string) : facade_call :=
  let match_header := If_Match headers in
  let match_header :=
    if negb (truth match_header) then If_None_Match headers
    else match_header in
  let match_header :=
    if truth match_header then slice_1_m1 <$> match_header
    else match_header in
  Call_get_asset_icon asset size match_header.

End AssetIconsResource.

(** The header argument of a facade call, for the one call that has it. *)
Definition match_header_of (c : facade_call) : option string :=
  match c with
  | Call_get_asset_icon _ _ m => m
  | _ => None
  end.

(** The first value the query string gives to [k]. *)
Fixpoint first_value (q : MultiDict) (k : string) : option string :=
  match q with
  | [] => None
  | (k', v) :: rest => if decide (k' = k) then Some v else first_value rest k
  end.


(** Entry and built record agree on the three keys. *)
Definition built_from (entry : Dict) (d : BlockchainAccountData) : Prop :=
  entry !! "address" = Some (address d)
  ∧ entry !! "label" = Some (label d)
  ∧ entry !! "tags" = Some (tags d).

(** * Properties *)

(** ** Running the loaders

    The store effects of the helpers, then what each loader returns and the
    store it leaves, by the closed forms. *)

Ltac run := unfold mbind, M_bind, mret, M_ret, getdict, raise; cbn beta iota.

Lemma for_items_setitem l items : ∀ (d : Dict) (h : heap),
  h !! l = Some d →
  for_items items (setitem l) h
  = Some (tt, <[l := foldl (λ acc kv, <[kv.1 := kv.2]> acc) d items]> h).
Proof.
  induction items as [|[k v] items IH]; intros d h Hl; simpl; run.
  - by rewrite list_insert_id.
  - unfold setitem at 1. rewrite Hl.
    rewrite (IH (<[k:=v]> d)).
    + by rewrite list_insert_insert_eq.
    + apply list_lookup_insert_eq. by eapply lookup_lt_Some.
Qed.

Lemma foldl_setitem_union (items : list (string * raw)) : ∀ d : Dict,
  NoDup items.*1 →
  foldl (λ acc kv, <[kv.1 := kv.2]> acc) d items = list_to_map items ∪ d.
Proof.
  induction items as [|[k v] items IH]; intros d Hnd; simpl.
  - by rewrite (left_id_L ∅ (∪)).
  - inversion Hnd as [|? ? Hk Hnd']; subst.
    rewrite IH by done.
    rewrite <- insert_union_l, <- insert_union_r; [done|].
    by apply not_elem_of_list_to_map_1.
Qed.

Lemma assign_all (va d : Dict) :
  foldl (λ acc kv, <[kv.1 := kv.2]> acc) d (map_to_list va) = va ∪ d.
Proof.
  rewrite foldl_setitem_union by apply NoDup_fst_map_to_list.
  by rewrite list_to_map_to_list.
Qed.

Lemma to_dict_empty q : to_dict q = ∅ ↔ q = [].
Proof.
  split; [|by intros ->].
  destruct q as [|[k v] q]; [done|]. simpl. intros H.
  by apply insert_non_empty in H.
Qed.

(** *** [_combine_data_and_view_args], case by case *)

Lemma combine_missing data schema h :
  _combine_data_and_view_args data None schema h = Some (data, h).
Proof. reflexivity. Qed.

Lemma combine_plain_empty l va schema h :
  h !! l = Some ∅ →
  _combine_data_and_view_args (Plain l) (Some va) schema h
  = Some (MultiDictProxy (DictAt va) schema, h).
Proof.
  intros Hl. unfold _combine_data_and_view_args, eq_empty. run.
  rewrite Hl. by rewrite bool_decide_eq_true_2.
Qed.

Lemma combine_plain l va schema h (d p : Dict) :
  h !! l = Some d → d ≠ ∅ → h !! va = Some p →
  _combine_data_and_view_args (Plain l) (Some va) schema h
  = Some (MultiDictProxy (DictAt l) schema, <[l := p ∪ d]> h).
Proof.
  intros Hl Hd Hva. unfold _combine_data_and_view_args, eq_empty. run.
  rewrite Hl, bool_decide_eq_false_2, Hva by done.
  rewrite (for_items_setitem l _ d) by done.
  by rewrite assign_all.
Qed.

Lemma combine_query_empty s' va schema h :
  _combine_data_and_view_args (MultiDictProxy (Multi []) s') (Some va) schema h
  = Some (MultiDictProxy (DictAt va) schema, h).
Proof. reflexivity. Qed.

Lemma combine_query q s' va schema h (p : Dict) :
  q ≠ [] → h !! va = Some p →
  _combine_data_and_view_args (MultiDictProxy (Multi q) s') (Some va) schema h
  = Some (MultiDictProxy (DictAt (length h)) schema, h ++ [p ∪ to_dict q]).
Proof.
  intros Hq Hva. unfold _combine_data_and_view_args, eq_empty. run.
  rewrite bool_decide_eq_false_2 by done.
  unfold proxy_to_dict, new_dict.
  rewrite lookup_app_l by (by eapply lookup_lt_Some). rewrite Hva.
  rewrite (for_items_setitem _ _ (to_dict q)).
  - rewrite assign_all. do 2 f_equal.
    rewrite insert_app_r_alt by lia. by rewrite Nat.sub_diag.
  - rewrite lookup_app_r by lia. by rewrite Nat.sub_diag.
Qed.

Lemma valid_ref_lookup (h : heap) l : valid_ref h (Some l) → is_Some (h !! l).
Proof.
  simpl. intros H%Is_true_true%bool_decide_eq_true. by apply lookup_lt_is_Some.
Qed.

Lemma valid_ref_mono (h h' : heap) o :
  length h ≤ length h' → valid_ref h o → valid_ref h' o.
Proof.
  destruct o as [l|]; [|done]. simpl.
  intros Hle H%Is_true_true%bool_decide_eq_true.
  apply Is_true_true, bool_decide_eq_true. lia.
Qed.

Lemma merge_idemp p d : merge p (merge p d) = merge p d.
Proof.
  destruct p as [va|]; simpl; [|done].
  by rewrite (assoc_L (∪)), (idemp_L (∪)).
Qed.

Lemma merge_non_empty p d : d ≠ ∅ → merge p d ≠ ∅.
Proof.
  destruct p as [va|]; simpl; [|done].
  intros Hd Hu. apply Hd, map_empty. intros i.
  apply (f_equal (.!! i)) in Hu.
  rewrite lookup_empty, lookup_union_None in Hu. tauto.
Qed.

(** One call of the helper on the body object: result, and store left. *)
Lemma combine_body_run l o schema (h : heap) d :
  h !! l = Some d → valid_ref h o →
  ∃ v h',
    _combine_data_and_view_args (Plain l) o schema h = Some (v, h')
    ∧ payload h' v = Some (merge (o ≫= (h !!.)) d)
    ∧ length h' = length h
    ∧ h' !! l = Some (if decide (d = ∅) then d else merge (o ≫= (h !!.)) d)
    ∧ ∀ l', l' ≠ l → h' !! l' = h !! l'.
Proof.
  intros Hl Ho. destruct o as [va|].
  - destruct (valid_ref_lookup _ _ Ho) as [p Hva].
    destruct (decide (d = ∅)) as [->|Hd].
    + eexists _, _. split; [by apply combine_plain_empty|]. simpl.
      rewrite Hva. simpl. by rewrite (right_id_L ∅ (∪)).
    + eexists _, _. split; [by apply (combine_plain _ _ _ _ d p)|]. simpl.
      assert (l < length h) by by eapply lookup_lt_Some.
      rewrite Hva, length_insert, list_lookup_insert_eq by done. simpl.
      repeat split; try done. intros l' Hne. by rewrite list_lookup_insert_ne.
  - eexists _, _. split; [apply combine_missing|]. simpl.
    rewrite Hl. repeat split; try done. by destruct (decide (d = ∅)).
Qed.

(** One call of the helper on the query proxy: existing objects are kept. *)
Lemma combine_query_run q s' o schema (h : heap) :
  valid_ref h o →
  ∃ v h',
    _combine_data_and_view_args (MultiDictProxy (Multi q) s') o schema h
    = Some (v, h')
    ∧ payload h' v = Some (merge (o ≫= (h !!.)) (to_dict q))
    ∧ length h ≤ length h'
    ∧ ∀ l', l' < length h → h' !! l' = h !! l'.
Proof.
  intros Ho. destruct o as [va|].
  - destruct (valid_ref_lookup _ _ Ho) as [p Hva].
    destruct q as [|kv q].
    + eexists _, _. split; [apply combine_query_empty|]. simpl.
      rewrite Hva. simpl. by rewrite (right_id_L ∅ (∪)).
    + eexists _, _. split; [by apply (combine_query _ _ _ _ _ p)|].
      cbn [payload mbind option_bind].
      rewrite Hva, lookup_app_r, Nat.sub_diag, length_app by lia.
      repeat split; [simpl; lia|]. intros l' Hl'. by rewrite lookup_app_l.
  - eexists _, _. split; [apply combine_missing|]. done.
Qed.

Lemma valid_request_inv h r :
  valid_request h r → valid_ref h (json r) ∧ valid_ref h (view_args r).
Proof. unfold valid_request. by intros [??]%andb_True. Qed.

Lemma valid_request_intro h r :
  valid_ref h (json r) → valid_ref h (view_args r) → valid_request h r.
Proof. unfold valid_request. intros. by apply andb_True. Qed.

(** The body-first step shared by [load_json_viewargs_data] and
    [load_json_query_viewargs_data]. *)
Lemma body_merge_run r schema (h : heap) l d :
  json r = Some l → h !! l = Some d → valid_request h r →
  ∃ v h',
    _combine_data_and_view_args (Plain l) (view_args r) schema h = Some (v, h')
    ∧ payload h' v = Some (merge (path h r) d)
    ∧ valid_request h' r
    ∧ path h' r = path h r
    ∧ body h' r = Some (if decide (d = ∅) then d else merge (path h r) d).
Proof.
  intros Hj Hl [Hvj Hvp]%valid_request_inv.
  destruct (combine_body_run l (view_args r) schema h d Hl Hvp)
    as (v & h' & Hrun & Hpay & Hlen & Hbody & Hframe).
  exists v, h'. unfold path, body. rewrite Hj. cbn [mbind option_bind].
  repeat split; try done.
  - apply valid_request_intro; apply (valid_ref_mono h h'); done || lia.
  - destruct (view_args r) as [lv|] eqn:Hv; [|done]. simpl.
    destruct (decide (lv = l)) as [->|Hne]; [|by apply Hframe].
    rewrite Hbody, Hl. simpl in *. rewrite Hl. simpl.
    destruct (decide (d = ∅)); [done|]. by rewrite (idemp_L (∪)).
Qed.

Lemma query_merge_run r schema s' (h : heap) q :
  json r = None → valid_request h r →
  ∃ v h',
    _combine_data_and_view_args (MultiDictProxy (Multi q) s') (view_args r)
      schema h = Some (v, h')
    ∧ payload h' v = Some (merge (path h r) (to_dict q))
    ∧ valid_request h' r
    ∧ path h' r = path h r
    ∧ body h' r = None.
Proof.
  intros Hj [Hvj Hvp]%valid_request_inv.
  destruct (combine_query_run q s' (view_args r) schema h Hvp)
    as (v & h' & Hrun & Hpay & Hlen & Hframe).
  exists v, h'. unfold path, body. rewrite Hj.
  repeat split; try done.
  - apply valid_request_intro; by apply (valid_ref_mono h h').
  - destruct (view_args r) as [lv|] eqn:Hv; [|done]. simpl.
    apply Hframe. apply valid_ref_lookup in Hvp. by apply lookup_lt_is_Some.
Qed.

(** Every loader returns on a valid request; its result and the store it
    leaves are given by the closed forms. *)
Lemma loader_run place r schema (h : heap) :
  valid_request h r →
  ∃ v h',
    loader place r schema h = Some (v, h')
    ∧ result_payload h' v = resolve place (body h r) (query r) (path h r)
    ∧ valid_request h' r
    ∧ path h' r = path h r
    ∧ body h' r = body_after place (body h r) (path h r).
Proof.
  intros Hv. pose proof (valid_request_inv _ _ Hv) as [Hvj Hvp].
  destruct (json r) as [l|] eqn:Hj.
  - destruct (valid_ref_lookup _ _ Hvj) as [d Hl].
    assert (body h r = Some d) as Hb by (unfold body; by rewrite Hj).
    destruct place; unfold loader, load_json_viewargs_data, load_json_query_data,
      load_json_query_viewargs_data, load_view_args, load_json; run;
      rewrite Hj, Hb; cbn [fmap option_fmap option_map].
    + destruct (body_merge_run r schema h l d Hj Hl Hv)
        as (v & h' & -> & Hpay & ? & ? & ?).
      exists (Some v), h'. simpl. by rewrite Hpay.
    + exists (Some (Plain l)), h. simpl. by rewrite Hl.
    + destruct (body_merge_run r schema h l d Hj Hl Hv)
        as (v & h' & -> & Hpay & ? & ? & ?).
      exists (Some v), h'. simpl. by rewrite Hpay.
  - assert (body h r = None) as Hb by (unfold body; by rewrite Hj).
    destruct place; unfold loader, load_json_viewargs_data, load_json_query_data,
      load_json_query_viewargs_data, load_view_args, load_json,
      load_querystring; run; rewrite Hj, Hb; cbn [fmap option_fmap option_map].
    + by exists None, h.
    + unfold query. destruct (args r) as [q|]; simpl.
      * by exists (Some (MultiDictProxy (Multi q) schema)), h.
      * by exists None, h.
    + unfold query. destruct (args r) as [q|]; simpl.
      * destruct (query_merge_run r schema schema h q Hj Hv)
          as (v & h' & -> & Hpay & ? & ? & ?).
        exists (Some v), h'. simpl. by rewrite Hpay.
      * by exists None, h.
Qed.

Lemma outcome_result {m : M (option pyval)} {h v h'} :
  m h = Some (v, h') → outcome m h = result_payload h' v.
Proof. unfold outcome. by intros ->. Qed.

Lemma loader_outcome place r schema (h : heap) :
  valid_request h r →
  outcome (loader place r schema) h
  = resolve place (body h r) (query r) (path h r).
Proof.
  intros Hv. destruct (loader_run place r schema h Hv) as (v & h' & Hrun & <- & _).
  by apply outcome_result.
Qed.


Lemma loader_store_cases place r schema (h : heap) :
  valid_request h r →
  store_after (loader place r schema) h = h
  ∨ (∃ l (x : Dict), json r = Some l ∧ l < length h
                     ∧ store_after (loader place r schema) h = <[l := x]> h)
  ∨ (∃ x : Dict, store_after (loader place r schema) h = h ++ [x]).
Proof.
  intros Hv. pose proof (valid_request_inv _ _ Hv) as [Hvj Hvp].
  unfold store_after.
  destruct place;
    unfold loader, load_json_viewargs_data, load_json_query_data,
      load_json_query_viewargs_data, load_view_args, load_json,
      load_querystring; run;
    destruct (json r) as [l|] eqn:Hj; cbn [fmap option_fmap option_map];
    try (by left);
    try (destruct (args r) as [q|]; cbn [fmap option_fmap option_map];
         [|by left]);
    destruct (view_args r) as [va|] eqn:Hva;
    try (rewrite combine_missing; by left);
    destruct (valid_ref_lookup _ _ Hvp) as [p Hp].
  - destruct (valid_ref_lookup _ _ Hvj) as [d Hl].
    destruct (decide (d = ∅)) as [->|Hd].
    + rewrite combine_plain_empty by done. by left.
    + rewrite (combine_plain _ _ _ _ d p) by done. right. left.
      exists l, (p ∪ d). split; [done|].
      split; [by eapply lookup_lt_Some|done].
  - destruct (valid_ref_lookup _ _ Hvj) as [d Hl].
    destruct (decide (d = ∅)) as [->|Hd].
    + rewrite combine_plain_empty by done. by left.
    + rewrite (combine_plain _ _ _ _ d p) by done. right. left.
      exists l, (p ∪ d). split; [done|].
      split; [by eapply lookup_lt_Some|done].
  - destruct q as [|kv q].
    + rewrite combine_query_empty. by left.
    + rewrite (combine_query _ _ _ _ _ p) by done. right. right. by eexists.
Qed.

(** ** Runs on the sample requests *)

Example to_dict_keeps_first :
  to_dict [("c", "3"); ("c", "4")] = {[ "c" := RStr "3" ]}.
Proof. by vm_compute. Qed.

(** Body and path merge in place: afterwards the body dict holds the path's
    items too, and the path dict is as it was. *)
Example accounts_merge_in_place :
  load_json_viewargs_data accounts_request [] accounts_store
  = Some (Some (MultiDictProxy (DictAt 0) []),
          [ {[ "accounts" := RStr "0xabc"; "blockchain" := RStr "ETH" ]};
            {[ "blockchain" := RStr "ETH" ]} ]).
Proof. by vm_compute. Qed.

(** No body: the query string is flattened into a new dict, which receives
    the path's items. *)
Example query_merge_allocates :
  load_json_query_viewargs_data
    {| json := None; args := Some [("c", "3"); ("c", "4")];
       view_args := Some 0 |} [] path_only_store
  = Some (Some (MultiDictProxy (DictAt 1) []),
          [ {[ "blockchain" := RStr "ETH" ]};
            {[ "blockchain" := RStr "ETH"; "c" := RStr "3" ]} ]).
Proof. by vm_compute. Qed.

(** A proxy over a plain dict has no [to_dict]: merging it again raises. *)
Example proxy_over_dict_raises :
  _combine_data_and_view_args (MultiDictProxy (DictAt 0) []) (Some 1) []
    accounts_store = None.
Proof. by vm_compute. Qed.

Example put_accounts_dispatch :
  dispatch (blockchains_accounts PUT echo) (sample_resource (Some "0xabc"))
    accounts_request (start accounts_store)
  = (Returned {[ "blockchain" := VEnum "ETH";
                 "accounts" := VEnum "checksummed";
                 "async_query" := VBool false ]},
     {| objects :=
          [ {[ "accounts" := RStr "0xabc"; "blockchain" := RStr "ETH" ]};
            {[ "blockchain" := RStr "ETH" ]} ];
        trace :=
          [ Schema_built (BlockchainAccountsPutSchema "0xabc");
            Loader_run json_and_view_args;
            Validator_run (BlockchainAccountsPutSchema "0xabc");
            Handler_called {[ "blockchain" := VEnum "ETH";
                              "accounts" := VEnum "checksummed";
                              "async_query" := VBool false ]} ] |}).
Proof. by vm_compute. Qed.

(** Before the chain manager is configured, no step is taken. *)
Example put_accounts_unconfigured :
  dispatch (blockchains_accounts PUT echo) (sample_resource None)
    accounts_request (start accounts_store)
  = (DependencyUnavailable, start accounts_store).
Proof. by vm_compute. Qed.

(** ** Tactics for the closed forms *)

Ltac sources :=
  repeat match goal with
         | |- context [body ?h ?r] => destruct (body h r) as [?b|]
         | |- context [query ?r] => destruct (query r) as [?q|]
         | |- context [path ?h ?r] => destruct (path h r) as [?p|]
         end.

Ltac lookups :=
  repeat first
    [ done
    | rewrite lookup_union_r by done
    | erewrite lookup_union_Some_l by done ].

(** ** The merge helper *)

(** C10: when the view_args source is missing,
    [_combine_data_and_view_args] returns the very value it was given and
    leaves every dict object as it was, so the mapping the data denotes has
    no key added, removed or overwritten. *)
Theorem combine_without_view_args data schema (h : heap) :
  _combine_data_and_view_args data None schema h = Some (data, h)
  ∧ store_after (_combine_data_and_view_args data None schema) h = h
  ∧ ∀ v h', _combine_data_and_view_args data None schema h = Some (v, h') →
            payload h' v = payload h data.
Proof.
  split; [apply combine_missing|]. split.
  - unfold store_after. by rewrite combine_missing.
  - intros v h'. rewrite combine_missing. by intros [= <- <-].
Qed.

(** C9: for [json_and_view_args] and [json_and_query_and_view_args], when the
    data reaching the merge is present but is the empty mapping and view_args
    are present, the loader returns a proxy over the view_args dict itself:
    the result is exactly the view_args mapping, and nothing is assigned key
    by key. *)
Theorem empty_data_replaced_by_view_args place r schema (h : heap) va :
  valid_request h r →
  place ≠ json_and_query →
  data_of place h r = Some ∅ →
  view_args r = Some va →
  loader place r schema h
  = Some (Some (MultiDictProxy (DictAt va) schema), h)
  ∧ ∃ p, path h r = Some p ∧ outcome (loader place r schema) h = Mapping p.
Proof.
  intros Hv Hplace Hdata Hva.
  pose proof (valid_request_inv _ _ Hv) as [Hvj Hvp]. rewrite Hva in Hvp.
  destruct (valid_ref_lookup _ _ Hvp) as [p Hp].
  assert (path h r = Some p) as Hpath by (unfold path; by rewrite Hva).
  assert (loader place r schema h
          = Some (Some (MultiDictProxy (DictAt va) schema), h)) as Hrun.
  { unfold data_of, body, query in Hdata.
    destruct place; [| done |];
      unfold loader, load_json_viewargs_data, load_json_query_viewargs_data,
        load_view_args, load_json, load_querystring; run; rewrite Hva;
      destruct (json r) as [l|] eqn:Hj; simpl in Hdata;
      cbn [fmap option_fmap option_map].
    - by rewrite combine_plain_empty.
    - done.
    - destruct (h !! l) as [d|] eqn:Hl; simpl in Hdata; [|].
      + injection Hdata as ->. by rewrite combine_plain_empty.
      + apply valid_ref_lookup in Hvj as [? ?]. congruence.
    - destruct (args r) as [q|]; simpl in Hdata; [|done].
      injection Hdata as ->%to_dict_empty. done. }
  split; [done|]. exists p. split; [done|].
  rewrite (outcome_result Hrun). simpl. by rewrite Hp.
Qed.

(** Witness of C9: body [{}], [blockchain] bound by the route. *)
Lemma empty_data_replaced_by_view_args_witness :
  loader json_and_view_args empty_body_request [] empty_body_store
  = Some (Some (MultiDictProxy (DictAt 1) []), empty_body_store)
  ∧ ∃ p, path empty_body_store empty_body_request = Some p
         ∧ outcome (loader json_and_view_args empty_body_request [])
             empty_body_store = Mapping p.
Proof.
  apply (empty_data_replaced_by_view_args json_and_view_args
           empty_body_request [] empty_body_store 1);
    [by vm_compute | discriminate | reflexivity | reflexivity].
Defined.

(** ** Body and path: [load_json_viewargs_data] *)

(** C3, as stated, fails: with no JSON body and [blockchain] bound by the
    route, [load_json_viewargs_data] returns [missing], not the path
    mapping. *)
Lemma absent_body_drops_path :
  body path_only_store path_only_request = None
  ∧ path path_only_store path_only_request
    = Some {[ "blockchain" := RStr "ETH" ]}
  ∧ outcome (load_json_viewargs_data path_only_request []) path_only_store
    = Absent.
Proof. by vm_compute. Qed.

(** C3, amended: when the JSON body is missing, [load_json_viewargs_data]
    returns [missing] whatever the path segments are, and touches no dict
    object (the guard [if data is missing: return data]). *)
Theorem absent_body_is_absent r schema (h : heap) :
  json r = None →
  load_json_viewargs_data r schema h = Some (None, h)
  ∧ outcome (load_json_viewargs_data r schema) h = Absent.
Proof.
  intros Hj.
  assert (load_json_viewargs_data r schema h = Some (None, h)) as Hrun.
  { unfold load_json_viewargs_data, load_view_args, load_json. run.
    by rewrite Hj. }
  split; [done|]. by rewrite (outcome_result Hrun).
Qed.

(** Witness of C3 amended: the request of the counterexample. *)
Lemma absent_body_is_absent_witness :
  load_json_viewargs_data path_only_request [] path_only_store
  = Some (None, path_only_store)
  ∧ outcome (load_json_viewargs_data path_only_request []) path_only_store
    = Absent.
Proof.
  apply (absent_body_is_absent path_only_request [] path_only_store).
  reflexivity.
Defined.

(** ** Body or query string: [load_json_query_data] *)

(** C4, as stated, fails: with body [{}] and the query string of the
    scenario, [load_json_query_data] returns the empty body and never reads
    the query string, so the three required fields are reported missing
    instead of the stated arguments. *)
Lemma empty_body_hides_query :
  body [∅] timerange_empty_body = Some ∅
  ∧ query timerange_empty_body = Some (to_dict timerange_query)
  ∧ outcome (load_json_query_data timerange_empty_body timerange_schema) [∅]
    = Mapping ∅
  ∧ validate_loaded timerange_schema
      (outcome (load_json_query_data timerange_empty_body timerange_schema) [∅])
    = Some (inl [("from_timestamp", Missing_required);
                 ("to_timestamp", Missing_required);
                 ("location", Missing_required)])
  ∧ validate timerange_schema (to_dict timerange_query)
    = inr timerange_arguments.
Proof. by vm_compute. Qed.

(** C4, amended: when the JSON body is missing and there is a query string,
    [load_json_query_data] returns exactly what the query reader returns, so
    the loaded mapping is the query-string mapping and validating it is
    validating the query-string mapping alone. *)
Theorem absent_body_yields_query r schema (h : heap) q :
  json r = None →
  args r = Some q →
  load_json_query_data r schema h = load_querystring r schema h
  ∧ outcome (load_json_query_data r schema) h = Mapping (to_dict q)
  ∧ validate_loaded schema (outcome (load_json_query_data r schema) h)
    = Some (validate schema (to_dict q)).
Proof.
  intros Hj Ha.
  assert (load_json_query_data r schema h = load_querystring r schema h) as Hrun.
  { unfold load_json_query_data, load_json. run. by rewrite Hj. }
  split; [done|].
  assert (outcome (load_json_query_data r schema) h = Mapping (to_dict q)) as ->.
  { unfold outcome. rewrite Hrun. unfold load_querystring. run. by rewrite Ha. }
  done.
Qed.

(** Witness of C4 amended: the scenario with no body at all yields the stated
    arguments. *)
Lemma absent_body_yields_query_witness :
  load_json_query_data timerange_no_body timerange_schema []
  = load_querystring timerange_no_body timerange_schema []
  ∧ outcome (load_json_query_data timerange_no_body timerange_schema) []
    = Mapping (to_dict timerange_query)
  ∧ validate_loaded timerange_schema
      (outcome (load_json_query_data timerange_no_body timerange_schema) [])
    = Some (inr timerange_arguments).
Proof.
  destruct (absent_body_yields_query timerange_no_body timerange_schema []
              timerange_query eq_refl eq_refl) as (H1 & H2 & H3).
  split; [exact H1|]. split; [exact H2|].
  rewrite H3. by vm_compute.
Defined.

(** C5: under [json_and_query] and [json_and_query_and_view_args], once the
    JSON body yields a mapping the query string contributes nothing: the
    result is the same whatever the query string is, every field of the
    result comes from the body or (three-source loader) from the path, and a
    field given only in the query string is not in the result. *)
Theorem present_body_ignores_query place r schema (h : heap) b :
  valid_request h r →
  place ≠ json_and_view_args →
  body h r = Some b →
  (∀ a, outcome (loader place (with_args r a) schema) h
        = outcome (loader place r schema) h)
  ∧ (∀ k, is_Some (field_of (outcome (loader place r schema) h) k) →
          is_Some (b !! k)
          ∨ (place = json_and_query_and_view_args
             ∧ is_Some (value_in (path h r) k)))
  ∧ (∀ k, b !! k = None → value_in (path h r) k = None →
          field_of (outcome (loader place r schema) h) k = None).
Proof.
  intros Hv Hplace Hb.
  assert (∀ a, valid_request h (with_args r a)) as Hva by done.
  split; [|split].
  - intros a. rewrite !loader_outcome by done.
    change (body h (with_args r a)) with (body h r).
    change (path h (with_args r a)) with (path h r).
    rewrite Hb. by destruct place.
  - intros k. rewrite loader_outcome, Hb by done.
    destruct place; [done| |]; simpl.
    + by left.
    + destruct (path h r) as [p|]; simpl; [|by left].
      intros [x [Hx|[_ Hx]]%lookup_union_Some_raw]; [right|left]; eauto.
  - intros k Hbk Hpk. rewrite loader_outcome, Hb by done.
    destruct place; [done| |]; simpl; [done|].
    destruct (path h r) as [p|]; simpl in *; [|done].
    by apply lookup_union_None.
Qed.

(** Witness of C5: field [b] comes in the query string only. *)
Lemma present_body_ignores_query_witness :
  (∀ a, outcome (loader json_and_query_and_view_args
                   (with_args split_request a) []) split_store
        = outcome (loader json_and_query_and_view_args split_request [])
            split_store)
  ∧ (∀ k, is_Some (field_of (outcome (loader json_and_query_and_view_args
                                         split_request []) split_store) k) →
          is_Some (({[ "a" := RInt 1 ]} : Dict) !! k)
          ∨ (json_and_query_and_view_args = json_and_query_and_view_args
             ∧ is_Some (value_in (path split_store split_request) k)))
  ∧ (∀ k, ({[ "a" := RInt 1 ]} : Dict) !! k = None →
          value_in (path split_store split_request) k = None →
          field_of (outcome (loader json_and_query_and_view_args
                               split_request []) split_store) k = None).
Proof.
  apply (present_body_ignores_query json_and_query_and_view_args
           split_request [] split_store {[ "a" := RInt 1 ]});
    [by vm_compute | discriminate | reflexivity].
Defined.

(** ** Precedence among overlapping sources *)

(** C1, as stated, fails: it ranks the query string above the body, yet with
    field [k] in both, [load_json_query_data] returns the body's value, and
    so does [load_json_query_viewargs_data]. *)
Lemma body_beats_query :
  value_in (content overlap_store overlap_request Body) "k" = Some (RInt 1)
  ∧ value_in (content overlap_store overlap_request Query) "k"
    = Some (RStr "2")
  ∧ field_of (outcome (load_json_query_data overlap_request []) overlap_store)
      "k" = Some (RInt 1)
  ∧ field_of (outcome (load_json_query_viewargs_data overlap_request [])
                overlap_store) "k" = Some (RInt 1)
  ∧ field_of (outcome (load_json_query_data overlap_request []) overlap_store)
      "k"
    ≠ value_in (content overlap_store overlap_request Query) "k".
Proof. repeat split; by vm_compute. Qed.

(** C1, amended: for every location and every field supplied by two of its
    sources, the merged payload maps the field to the value of the highest
    source supplying it, in the order path > body > query for
    [json_and_query_and_view_args], path > body for [json_and_view_args] and
    body > query for [json_and_query]. *)
Theorem overlap_takes_highest place r schema (h : heap) k hi lo :
  valid_request h r →
  highest h r k (precedence place) = Some hi →
  lo ∈ precedence place →
  lo ≠ hi →
  is_Some (value_in (content h r lo) k) →
  field_of (outcome (loader place r schema) h) k = value_in (content h r hi) k.
Proof.
  intros Hv Hhi Hlo Hne [y Hy]. rewrite loader_outcome by done.
  destruct place, hi; simpl in Hhi, Hlo |- *;
    repeat (apply elem_of_cons in Hlo as [->|Hlo]);
    try (by apply elem_of_nil in Hlo); try done;
    simpl in Hy; unfold value_in in *; simpl in Hhi;
    sources; simpl in *;
    repeat match goal with
           | H : context [?m !! k] |- _ =>
               lazymatch type of H with
               | m !! k = _ => fail
               | _ => destruct (m !! k) eqn:?
               end
           end;
    simplify_eq; simpl; lookups.
Qed.

(** Witness of C1 amended: [k] in body, query string and path; the path's
    value is the one loaded. *)
Lemma overlap_takes_highest_witness :
  field_of (outcome (loader json_and_query_and_view_args triple_request [])
              triple_store) "k"
  = value_in (content triple_store triple_request Path) "k".
Proof.
  apply (overlap_takes_highest json_and_query_and_view_args triple_request []
           triple_store "k" Path Query);
    [by vm_compute | reflexivity | | discriminate | by eexists].
  simpl. apply list_elem_of_In. simpl. tauto.
Defined.

(** ** Disjoint sources *)

(** C2, as stated, fails: with [a] in the body, [b] in the query string and
    [c] in the path, the payload of [load_json_query_viewargs_data] has [a]
    and [c] only; the query-string field is not carried. *)
Lemma disjoint_query_field_dropped :
  body split_store split_request = Some {[ "a" := RInt 1 ]}
  ∧ query split_request = Some {[ "b" := RStr "2" ]}
  ∧ path split_store split_request = Some {[ "c" := RStr "3" ]}
  ∧ outcome (load_json_query_viewargs_data split_request []) split_store
    = Mapping {[ "a" := RInt 1; "c" := RStr "3" ]}
  ∧ ¬ carries_every_source split_store split_request
        (outcome (load_json_query_viewargs_data split_request []) split_store).
Proof.
  repeat split; try by vm_compute.
  intros (m & Hm & Hall).
  specialize (Hall Query "b" (RStr "2") eq_refl).
  assert (field_of (outcome (load_json_query_viewargs_data split_request [])
                      split_store) "b" = None) as Hb by by vm_compute.
  rewrite Hm in Hb. simpl in Hb. congruence.
Qed.

(** C2, amended: for [json_and_query_and_view_args], when pairwise disjoint
    sets of fields come in the body, the query string and the path, the
    merged payload has exactly the fields of the body and of the path, each
    with the value its source gave; the query-string fields are not in it.
    (The sets may be non-empty, as in the claim, or empty.) *)
Theorem disjoint_body_and_path_carried r schema (h : heap) (b q p : Dict) :
  valid_request h r →
  body h r = Some b → query r = Some q → path h r = Some p →
  b ##ₘ q → b ##ₘ p → q ##ₘ p →
  ∃ m, outcome (load_json_query_viewargs_data r schema) h = Mapping m
       ∧ dom m = dom b ∪ dom p
       ∧ (∀ k x, b !! k = Some x → m !! k = Some x)
       ∧ (∀ k x, p !! k = Some x → m !! k = Some x)
       ∧ (∀ k, is_Some (q !! k) → m !! k = None).
Proof.
  intros Hv Hb Hq Hp Hbq Hbp Hqp.
  exists (p ∪ b). split; [|split; [|split; [|split]]].
  - change load_json_query_viewargs_data
      with (loader json_and_query_and_view_args).
    rewrite loader_outcome by done. by rewrite Hb, Hq, Hp.
  - rewrite dom_union_L. apply (comm_L (∪)).
  - intros k x Hk. rewrite lookup_union_r; [done|].
    apply (map_disjoint_Some_l b p k x Hbp Hk).
  - intros k x Hk. by apply lookup_union_Some_l.
  - intros k [x Hk]. apply lookup_union_None. split.
    + apply (map_disjoint_Some_l q p k x Hqp Hk).
    + apply (map_disjoint_Some_r b q k x Hbq Hk).
Qed.

(** Witness of C2 amended: the request of the counterexample. *)
Lemma disjoint_body_and_path_carried_witness :
  ∃ m, outcome (load_json_query_viewargs_data split_request []) split_store
       = Mapping m
       ∧ dom m = dom ({[ "a" := RInt 1 ]} : Dict)
                 ∪ dom ({[ "c" := RStr "3" ]} : Dict)
       ∧ (∀ k x, ({[ "a" := RInt 1 ]} : Dict) !! k = Some x → m !! k = Some x)
       ∧ (∀ k x, ({[ "c" := RStr "3" ]} : Dict) !! k = Some x →
                 m !! k = Some x)
       ∧ (∀ k, is_Some (({[ "b" := RStr "2" ]} : Dict) !! k) → m !! k = None).
Proof.
  apply (disjoint_body_and_path_carried split_request [] split_store
           {[ "a" := RInt 1 ]} {[ "b" := RStr "2" ]} {[ "c" := RStr "3" ]});
    try (by vm_compute);
    by apply map_disjoint_singleton_l_2.
Defined.

(** ** Running twice *)

Lemma resolve_after place b q p :
  resolve place (body_after place b p) q p = resolve place b q p.
Proof.
  destruct place, b as [d|]; simpl; try done;
    destruct (decide (d = ∅)); try done; by rewrite merge_idemp.
Qed.

Lemma resolve_returns place b q p : resolve place b q p ≠ Raised.
Proof. by destruct place, b, q. Qed.

(** C6, as stated, fails: merging is not free of side effects on its input.
    With a non-empty body and a bound path, [_combine_data_and_view_args]
    assigns the path's items into the data dict it was given, so after
    [load_json_viewargs_data] the parsed body object holds [blockchain] too
    and the store is no longer the one the run started from. *)
Lemma merge_assigns_into_body :
  body accounts_store accounts_request = Some {[ "accounts" := RStr "0xabc" ]}
  ∧ _combine_data_and_view_args (Plain 0) (Some 1) [] accounts_store
    = Some (MultiDictProxy (DictAt 0) [],
            [ {[ "accounts" := RStr "0xabc"; "blockchain" := RStr "ETH" ]};
              {[ "blockchain" := RStr "ETH" ]} ])
  ∧ body (store_after (load_json_viewargs_data accounts_request [])
            accounts_store) accounts_request
    = Some {[ "accounts" := RStr "0xabc"; "blockchain" := RStr "ETH" ]}
  ∧ store_after (load_json_viewargs_data accounts_request []) accounts_store
    ≠ accounts_store.
Proof.
  split; [by vm_compute|]. split; [by vm_compute|]. split; [by vm_compute|].
  intros Heq. apply (f_equal (λ st : heap, st !! 0 ≫= (.!! "blockchain"))) in Heq.
  vm_compute in Heq. discriminate.
Qed.

(** C6, amended: loading, merging and validating are deterministic, and
    running a loader followed by validation a second time, on the store the
    first run left, gives the same loaded mapping and the same validation
    result as the first run.  A run is not free of side effects: the merge
    may assign the path's items into the parsed body dict, whose content
    afterwards is given by [body_after]; that is its only effect on existing
    objects: the path mapping, the query string and every dict object other
    than the body are as they were.  Each run returns, and what it loads is a
    function of the contents of the three sources. *)
Theorem rerun_same_arguments place r schema (h : heap) :
  valid_request h r →
  outcome (loader place r schema) h ≠ Raised
  ∧ outcome (loader place r schema) h
    = resolve place (body h r) (query r) (path h r)
  ∧ outcome (loader place r schema) (store_after (loader place r schema) h)
    = outcome (loader place r schema) h
  ∧ validate_loaded schema
      (outcome (loader place r schema)
         (store_after (loader place r schema) h))
    = validate_loaded schema (outcome (loader place r schema) h)
  ∧ body (store_after (loader place r schema) h) r
    = body_after place (body h r) (path h r)
  ∧ path (store_after (loader place r schema) h) r = path h r
  ∧ (∀ l', l' < length h → json r ≠ Some l' →
           store_after (loader place r schema) h !! l' = h !! l')
  ∧ valid_request (store_after (loader place r schema) h) r.
Proof.
  intros Hv.
  assert (∀ l', l' < length h → json r ≠ Some l' →
                store_after (loader place r schema) h !! l' = h !! l') as Hframe.
  { intros l' Hl' Hne.
    destruct (loader_store_cases place r schema h Hv)
      as [->|[(l & x & Hj & Hl & ->)|(x & ->)]]; [done| |].
    - apply list_lookup_insert_ne. congruence.
    - by apply lookup_app_l. }
  destruct (loader_run place r schema h Hv)
    as (v & h' & Hrun & Hres & Hv' & Hpath & Hbody).
  assert (store_after (loader place r schema) h = h') as Hst
    by (unfold store_after; by rewrite Hrun).
  rewrite Hst in *.
  assert (outcome (loader place r schema) h'
          = outcome (loader place r schema) h) as Hsame.
  { rewrite !loader_outcome by done.
    rewrite Hpath, Hbody. apply resolve_after. }
  split; [rewrite loader_outcome by done; apply resolve_returns|].
  split; [by apply loader_outcome|].
  split; [done|]. split; [by rewrite Hsame|]. done.
Qed.

(** Witness of C6 amended: the [PUT] on [/blockchains/ETH]; the first run
    assigns [blockchain] into the body dict, and validation yields the same
    three arguments both times. *)
Lemma rerun_same_arguments_witness :
  validate_loaded (sample_put_schema "0xabc")
    (outcome (loader json_and_view_args accounts_request
                (sample_put_schema "0xabc"))
       (store_after (loader json_and_view_args accounts_request
                       (sample_put_schema "0xabc")) accounts_store))
  = validate_loaded (sample_put_schema "0xabc")
      (outcome (loader json_and_view_args accounts_request
                  (sample_put_schema "0xabc")) accounts_store)
  ∧ validate_loaded (sample_put_schema "0xabc")
      (outcome (loader json_and_view_args accounts_request
                  (sample_put_schema "0xabc")) accounts_store)
    = Some (inr {[ "blockchain" := VEnum "ETH";
                   "accounts" := VEnum "checksummed";
                   "async_query" := VBool false ]})
  ∧ body (store_after (loader json_and_view_args accounts_request
                         (sample_put_schema "0xabc")) accounts_store)
      accounts_request
    = body_after json_and_view_args
        (body accounts_store accounts_request)
        (path accounts_store accounts_request)
  ∧ path (store_after (loader json_and_view_args accounts_request
                         (sample_put_schema "0xabc")) accounts_store)
      accounts_request
    = path accounts_store accounts_request.
Proof.
  destruct (rerun_same_arguments json_and_view_args accounts_request
              (sample_put_schema "0xabc") accounts_store I)
    as (_ & _ & _ & Hval & Hbody & Hpath & _).
  split; [exact Hval|]. split; [by vm_compute|]. split; [exact Hbody|exact Hpath].
Defined.

(** ** Dispatch *)

Lemma validate_loaded_returns place r schema (h : heap) :
  valid_request h r →
  ∃ d, validate_loaded schema (outcome (loader place r schema) h)
       = Some (validate schema d)
       ∧ ∀ k, d !! k = field_of (outcome (loader place r schema) h) k.
Proof.
  intros Hv. rewrite loader_outcome by done.
  destruct (resolve place _ _ _) as [| |d] eqn:Hres.
  - by apply resolve_returns in Hres.
  - exists ∅. split; [done|]. intros k. apply lookup_empty.
  - by exists d.
Qed.

Ltac steps :=
  unfold dispatch, resolve_schema, run_loader, load, run_validator,
    call_handler, emit, start, mbind, D_bind, mret, D_ret; cbn beta iota.

(** The trace of a dispatch whose schema is at hand: the resolution step,
    then loader and Validator, then the handler if validation passed. *)
Lemma dispatch_trace {R Resp} (b : binding R Resp) (self : R) request
    (h : heap) schema :
  valid_request h request →
  schema_for b self = Some schema →
  ∃ d,
    (∀ k, d !! k
          = field_of (outcome (loader (at_location b) request schema) h) k)
    ∧ dispatch b self request (start h)
      = (match validate schema d with
         | inl e => Rejected e
         | inr kwargs => Returned (handler b self kwargs)
         end,
         {| objects := store_after (loader (at_location b) request schema) h;
            trace :=
              match argmap b with
              | inl _ => []
              | inr _ => [Schema_built schema]
              end
              ++ [Loader_run (at_location b); Validator_run schema]
              ++ match validate schema d with
                 | inl _ => []
                 | inr kwargs => [Handler_called kwargs]
                 end |}).
Proof.
  intros Hv Hs.
  destruct (validate_loaded_returns (at_location b) request schema h Hv)
    as (d & Hd & Hk).
  exists d. split; [done|]. unfold schema_for in Hs. steps.
  destruct (argmap b) as [s|make]; simplify_eq; [|rewrite Hs];
    cbn [objects trace app]; rewrite Hd; destruct (validate schema d); done.
Qed.

(** C7: every put, patch or delete dispatch of the blockchain-accounts
    resource whose chain manager is configured invokes the schema factory of
    its verb exactly once, as its first step and so before the loader runs.
    The schema so built is the verb's schema class applied to the ethereum
    connector the chain manager holds when the request is dispatched, and it
    is the schema the loaded payload is validated against: the reply is that
    validation's error, or the handler's result on its arguments.  While the
    chain manager is not configured the dispatch answers that the dependency
    is unavailable and takes no step. *)
Theorem schema_built_per_dispatch `{Externals} {Resp} (v : verb)
    (serve : BaseResource → ValidatedArguments → Resp)
    (self : BaseResource) request (h : heap) :
  valid_request h request →
  match chain_manager (rotkehlchen (rest_api self)) with
  | Some cm =>
      ∃ tail d,
        trace (dispatch (blockchains_accounts v serve) self request
                 (start h)).2
        = Schema_built (schema_class v (ethereum cm))
          :: Loader_run json_and_view_args
          :: Validator_run (schema_class v (ethereum cm))
          :: tail
        ∧ built_schemas
            (trace (dispatch (blockchains_accounts v serve) self request
                      (start h)).2)
          = [schema_class v (ethereum cm)]
        ∧ (∀ k, d !! k
                = field_of
                    (outcome (load_json_viewargs_data request
                                (schema_class v (ethereum cm))) h) k)
        ∧ (dispatch (blockchains_accounts v serve) self request
             (start h)).1
          = match validate (schema_class v (ethereum cm)) d with
            | inl e => Rejected e
            | inr kwargs => Returned (serve self kwargs)
            end
  | None =>
      dispatch (blockchains_accounts v serve) self request (start h)
      = (DependencyUnavailable, start h)
  end.
Proof.
  intros Hv.
  destruct (chain_manager (rotkehlchen (rest_api self))) as [cm|] eqn:Hcm.
  - assert (schema_for (blockchains_accounts v serve) self
            = Some (schema_class v (ethereum cm))) as Hs.
    { destruct v; unfold schema_for; simpl;
        unfold BlockchainsAccountsResource.make_put_schema,
          BlockchainsAccountsResource.make_patch_schema,
          BlockchainsAccountsResource.make_delete_schema; by rewrite Hcm. }
    destruct (dispatch_trace (blockchains_accounts v serve) self request h
                _ Hv Hs) as (d & Hd & ->).
    assert (at_location (blockchains_accounts v serve) = json_and_view_args)
      as Hat by by destruct v.
    rewrite Hat in Hd |- *.
    assert (∃ make, argmap (blockchains_accounts v serve) = inr make)
      as [make ->] by (destruct v; eauto).
    assert (∀ kwargs, handler (blockchains_accounts v serve) self kwargs
                      = serve self kwargs) as Hh by by destruct v.
    cbn [fst snd trace app].
    eexists _, d. split; [reflexivity|].
    split; [by destruct (validate _ d)|]. split; [exact Hd|].
    destruct (validate _ d); by rewrite ?Hh.
  - steps. destruct v; simpl;
      unfold BlockchainsAccountsResource.make_put_schema,
        BlockchainsAccountsResource.make_patch_schema,
        BlockchainsAccountsResource.make_delete_schema; by rewrite Hcm.
Qed.

(** Witness of C7: a [PUT] on [/blockchains/ETH] while the connector is the
    node [mainnet]. *)
Lemma schema_built_per_dispatch_witness :
  ∃ tail d,
    trace (dispatch (blockchains_accounts PUT echo)
             (sample_resource (Some "mainnet")) accounts_request
             (start accounts_store)).2
    = Schema_built (sample_put_schema "mainnet")
      :: Loader_run json_and_view_args
      :: Validator_run (sample_put_schema "mainnet")
      :: tail
    ∧ built_schemas
        (trace (dispatch (blockchains_accounts PUT echo)
                  (sample_resource (Some "mainnet")) accounts_request
                  (start accounts_store)).2)
      = [sample_put_schema "mainnet"]
    ∧ (∀ k, d !! k
            = field_of
                (outcome (load_json_viewargs_data accounts_request
                            (sample_put_schema "mainnet")) accounts_store) k)
    ∧ (dispatch (blockchains_accounts PUT echo)
         (sample_resource (Some "mainnet")) accounts_request
         (start accounts_store)).1
      = match validate (sample_put_schema "mainnet") d with
        | inl e => Rejected e
        | inr kwargs => Returned (echo (sample_resource (Some "mainnet")) kwargs)
        end.
Proof.
  exact (schema_built_per_dispatch PUT echo (sample_resource (Some "mainnet"))
           accounts_request accounts_store I).
Defined.

Lemma validate_missing_required (s : Schema) (d : Dict) f :
  f ∈ s → f_required f = true → d !! f_name f = None →
  ∃ e, validate s d = inl e ∧ (f_name f, Missing_required) ∈ e.
Proof.
  intros Hf Hreq Hd. unfold validate.
  assert ((f_name f, Missing_required)
          ∈ unknown s d ++ omap failure (check d <$> s)) as Hin.
  { apply elem_of_app. right. apply list_elem_of_omap.
    exists (check d f). split; [by apply list_elem_of_fmap_2|].
    unfold check. by rewrite Hd, Hreq. }
  destruct (unknown s d ++ omap failure (check d <$> s)) as [|e es].
  - by apply elem_of_nil in Hin.
  - by exists (e :: es).
Qed.

Lemma field_in_no_read_source place (h : heap) r k :
  (∀ src, src ∈ precedence place → value_in (content h r src) k = None) →
  field_of (resolve place (body h r) (query r) (path h r)) k = None.
Proof.
  intros Hnone.
  assert (∀ src, In src (precedence place) →
                 value_in (content h r src) k = None) as Hin
    by (intros src ?; by apply Hnone, list_elem_of_In).
  destruct place; simpl in Hin |- *.
  - pose proof (Hin Path (or_introl eq_refl)) as Hp.
    pose proof (Hin Body (or_intror (or_introl eq_refl))) as Hb.
    simpl in Hp, Hb. unfold value_in in *.
    destruct (body h r) as [b|], (path h r) as [p|]; simpl in *; try done.
    by apply lookup_union_None.
  - pose proof (Hin Body (or_introl eq_refl)) as Hb.
    pose proof (Hin Query (or_intror (or_introl eq_refl))) as Hq.
    simpl in Hb, Hq. unfold value_in in *.
    by destruct (body h r) as [b|], (query r) as [q|].
  - pose proof (Hin Path (or_introl eq_refl)) as Hp.
    pose proof (Hin Body (or_intror (or_introl eq_refl))) as Hb.
    pose proof (Hin Query (or_intror (or_intror (or_introl eq_refl)))) as Hq.
    simpl in Hp, Hb, Hq. unfold value_in in *.
    destruct (body h r) as [b|], (query r) as [q|], (path h r) as [p|];
      simpl in *; try done; by apply lookup_union_None.
Qed.

(** C8: when a field the schema declares required is in none of the sources
    the endpoint's location merges, the dispatcher answers with a validation
    error that names the field as missing, and the handler step is never
    taken; this holds wherever else the request may carry the field. *)
Theorem missing_required_rejected {R Resp} (b : binding R Resp) (self : R)
    request (h : heap) schema f :
  valid_request h request →
  schema_for b self = Some schema →
  f ∈ schema →
  f_required f = true →
  (∀ src, src ∈ precedence (at_location b) →
          value_in (content h request src) (f_name f) = None) →
  ∃ e, (dispatch b self request (start h)).1 = Rejected e
       ∧ (f_name f, Missing_required) ∈ e
       ∧ handler_calls (trace (dispatch b self request (start h)).2) = [].
Proof.
  intros Hv Hs Hf Hreq Hnone.
  destruct (dispatch_trace b self request h schema Hv Hs) as (d & Hd & ->).
  destruct (validate_missing_required schema d f Hf Hreq) as (e & -> & He).
  - rewrite Hd, loader_outcome by done. by apply field_in_no_read_source.
  - exists e. cbn [fst snd trace]. split; [done|]. split; [done|].
    unfold handler_calls. rewrite omap_app. by destruct (argmap b).
Qed.

(** Witness of C8: a time-range query on [json_and_query] whose [location]
    is bound by the route only. *)
Lemma missing_required_rejected_witness :
  ∃ e, (dispatch timerange_binding () location_in_path_request
          (start location_in_path_store)).1 = Rejected e
       ∧ (f_name location_field, Missing_required) ∈ e
       ∧ handler_calls
           (trace (dispatch timerange_binding () location_in_path_request
                     (start location_in_path_store)).2) = [].
Proof.
  apply (missing_required_rejected timerange_binding ()
           location_in_path_request location_in_path_store timerange_schema
           location_field);
    [by vm_compute | reflexivity | | reflexivity | ].
  - apply list_elem_of_In. simpl. tauto.
  - intros src Hsrc. apply list_elem_of_In in Hsrc. simpl in Hsrc.
    destruct Hsrc as [<-|[<-|[]]]; reflexivity.
Defined.

(** * Further properties of the loaders *)

(** X1: with no path segments bound, the three-source loader is the
    body-or-query loader: same returned value, same store. *)
Theorem three_sources_without_path r schema (h : heap) :
  view_args r = None →
  load_json_query_viewargs_data r schema h = load_json_query_data r schema h.
Proof.
  intros Hva.
  unfold load_json_query_viewargs_data, load_json_query_data, load_view_args,
    load_json, load_querystring. run. rewrite Hva.
  destruct (json r) as [l|]; simpl; [done|].
  by destruct (args r).
Qed.

Lemma three_sources_without_path_witness :
  load_json_query_viewargs_data overlap_request [] overlap_store
  = load_json_query_data overlap_request [] overlap_store.
Proof.
  apply (three_sources_without_path overlap_request [] overlap_store).
  reflexivity.
Defined.

(** X2: with a JSON body, the three-source loader is the body-and-path
    loader, whatever the query string holds. *)
Theorem three_sources_with_body r schema (h : heap) :
  is_Some (json r) →
  load_json_query_viewargs_data r schema h
  = load_json_viewargs_data r schema h.
Proof.
  intros [l Hl].
  unfold load_json_query_viewargs_data, load_json_viewargs_data,
    load_view_args, load_json. run. by rewrite Hl.
Qed.

Lemma three_sources_with_body_witness :
  load_json_query_viewargs_data triple_request [] triple_store
  = load_json_viewargs_data triple_request [] triple_store.
Proof.
  apply (three_sources_with_body triple_request [] triple_store). by eexists.
Defined.

(** X3: a loader yields [missing] exactly when there is no JSON body and,
    for the two loaders that read the query string, the query reader
    returned [missing] as well.  So [json_and_view_args] yields [missing]
    whenever the body is missing, while the other two yield a result as soon
    as the query reader returns a proxy, be it over an empty query string. *)
Theorem absent_iff_no_data place r schema (h : heap) :
  valid_request h r →
  outcome (loader place r schema) h = Absent
  ↔ json r = None ∧ (place = json_and_view_args ∨ args r = None).
Proof.
  intros Hv. rewrite loader_outcome by done.
  pose proof (valid_request_inv _ _ Hv) as [Hvj _].
  unfold body, query.
  destruct (json r) as [l|] eqn:Hj; simpl.
  - destruct (valid_ref_lookup _ _ Hvj) as [d ->].
    destruct place; simpl; split; try done; by intros [? _].
  - destruct place, (args r) as [q|]; simpl; split; try done;
      try (intros _; split; [done|]; by (left + right));
      by intros [_ [?|?]].
Qed.

(** Witness of X3: no body, an empty query string and a bound path: the
    three-source loader does not yield [missing]. *)
Lemma absent_iff_no_data_witness :
  (outcome (loader json_and_query_and_view_args path_only_request [])
     path_only_store = Absent
   ↔ json path_only_request = None
     ∧ (json_and_query_and_view_args = json_and_view_args
        ∨ args path_only_request = None))
  ∧ outcome (loader json_and_query_and_view_args path_only_request [])
      path_only_store = Mapping {[ "blockchain" := RStr "ETH" ]}.
Proof.
  split; [|by vm_compute].
  apply (absent_iff_no_data json_and_query_and_view_args path_only_request []
           path_only_store).
  by vm_compute.
Defined.

(** X4: every field of a loaded payload has the value one of the sources of
    that location gave it; a loader invents no field and no value. *)
Theorem loaded_value_has_source place r schema (h : heap) k x :
  valid_request h r →
  field_of (outcome (loader place r schema) h) k = Some x →
  ∃ src, src ∈ precedence place ∧ value_in (content h r src) k = Some x.
Proof.
  intros Hv. rewrite loader_outcome by done.
  destruct place; simpl; unfold value_in;
    destruct (body h r) as [b|] eqn:Hb, (query r) as [q|] eqn:Hq,
      (path h r) as [p|] eqn:Hp; simpl; try done;
    try (intros [Hx|[_ Hx]]%lookup_union_Some_raw);
    try intros Hx;
    first
      [ exists Path; split; [apply list_elem_of_In; simpl; tauto|];
        by simpl; rewrite Hp
      | exists Body; split; [apply list_elem_of_In; simpl; tauto|];
        by simpl; rewrite Hb
      | exists Query; split; [apply list_elem_of_In; simpl; tauto|];
        by simpl; rewrite Hq ].
Qed.

Lemma loaded_value_has_source_witness :
  ∃ src, src ∈ precedence json_and_query_and_view_args
         ∧ value_in (content split_store split_request src) "c"
           = Some (RStr "3").
Proof.
  apply (loaded_value_has_source json_and_query_and_view_args split_request []
           split_store "c" (RStr "3")); by vm_compute.
Defined.

(** X5: whenever a loader that reads the path returns a mapping, that mapping
    includes the whole path mapping, field by field and value by value. *)
Theorem path_fields_carried place r schema (h : heap) (m p : Dict) :
  valid_request h r →
  place ≠ json_and_query →
  outcome (loader place r schema) h = Mapping m →
  path h r = Some p →
  p ⊆ m.
Proof.
  intros Hv Hplace Hm Hp. rewrite loader_outcome, Hp in Hm by done.
  destruct place; [| done |]; simpl in Hm;
    [destruct (body h r) | destruct (either (body h r) (query r))];
    simpl in Hm; try done; injection Hm as <-; apply map_union_subseteq_l.
Qed.

Lemma path_fields_carried_witness :
  ({[ "c" := RStr "3" ]} : Dict) ⊆ {[ "a" := RInt 1; "c" := RStr "3" ]}.
Proof.
  apply (path_fields_carried json_and_query_and_view_args split_request []
           split_store);
    [by vm_compute | discriminate | by vm_compute | by vm_compute].
Defined.

(** X6: with a non-empty JSON body and path segments, the loaders that merge
    assign the path's items into the parsed body dict itself: the result is a
    proxy over the body object, whose content is now path over body. *)
Theorem body_dict_assigned_in_place place r schema (h : heap) l va (d p : Dict) :
  place ≠ json_and_query →
  json r = Some l → view_args r = Some va →
  h !! l = Some d → d ≠ ∅ → h !! va = Some p →
  loader place r schema h
  = Some (Some (MultiDictProxy (DictAt l) schema), <[l := p ∪ d]> h).
Proof.
  intros Hplace Hj Hva Hl Hd Hp.
  destruct place; [| done |];
    unfold loader, load_json_viewargs_data, load_json_query_viewargs_data,
      load_view_args, load_json; run; rewrite Hj, Hva;
    cbn [fmap option_fmap option_map];
    by rewrite (combine_plain _ _ _ _ d p).
Qed.

Lemma body_dict_assigned_in_place_witness :
  loader json_and_view_args accounts_request [] accounts_store
  = Some (Some (MultiDictProxy (DictAt 0) []),
          <[0 := {[ "blockchain" := RStr "ETH" ]}
                 ∪ {[ "accounts" := RStr "0xabc" ]}]> accounts_store).
Proof.
  apply (body_dict_assigned_in_place json_and_view_args accounts_request []
           accounts_store 0 1);
    [discriminate | reflexivity | reflexivity | reflexivity
    | apply insert_non_empty | reflexivity].
Defined.

(** X7: a loader run leaves every dict object other than the parsed body as
    it was, the path dict included, and adds at most one object to the
    store. *)
Theorem other_objects_untouched place r schema (h : heap) l' :
  valid_request h r →
  l' < length h →
  json r ≠ Some l' →
  store_after (loader place r schema) h !! l' = h !! l'
  ∧ length h ≤ length (store_after (loader place r schema) h)
  ∧ length (store_after (loader place r schema) h) ≤ S (length h).
Proof.
  intros Hv Hl' Hne.
  destruct (loader_store_cases place r schema h Hv)
    as [->|[(l & x & Hj & Hl & ->)|(x & ->)]].
  - split; [done|lia].
  - rewrite length_insert. split; [|lia].
    apply list_lookup_insert_ne. congruence.
  - rewrite length_app. simpl. split; [|lia]. by apply lookup_app_l.
Qed.

Lemma other_objects_untouched_witness :
  store_after (loader json_and_view_args accounts_request []) accounts_store
    !! 1 = accounts_store !! 1
  ∧ length accounts_store
    ≤ length (store_after (loader json_and_view_args accounts_request [])
                accounts_store)
  ∧ length (store_after (loader json_and_view_args accounts_request [])
              accounts_store) ≤ S (length accounts_store).
Proof.
  apply (other_objects_untouched json_and_view_args accounts_request []
           accounts_store 1);
    [by vm_compute | simpl; lia | discriminate].
Defined.

Lemma to_dict_lookup q k : to_dict q !! k = RStr <$> first_value q k.
Proof.
  induction q as [|[k' v] q IH]; simpl; [apply lookup_empty|].
  destruct (decide (k' = k)) as [->|Hne].
  - by rewrite lookup_insert_eq.
  - by rewrite lookup_insert_ne.
Qed.

(** X8: when the three-source loader merges a non-empty query string with
    path segments, it does so in a new flat dict: no existing object is
    assigned into, a path field has the path's value, and any other field
    has the first of the values the query string gives it (later
    occurrences of a repeated key are not in the result). *)
Theorem query_flattened_when_merged r schema (h : heap) q va (p : Dict) :
  json r = None → args r = Some q → q ≠ [] →
  view_args r = Some va → h !! va = Some p →
  load_json_query_viewargs_data r schema h
  = Some (Some (MultiDictProxy (DictAt (length h)) schema),
          h ++ [p ∪ to_dict q])
  ∧ ∀ k, (p ∪ to_dict q) !! k
         = match p !! k with
           | Some x => Some x
           | None => RStr <$> first_value q k
           end.
Proof.
  intros Hj Ha Hq Hva Hp. split.
  - unfold load_json_query_viewargs_data, load_view_args, load_json,
      load_querystring. run. rewrite Hj, Ha, Hva.
    cbn [fmap option_fmap option_map].
    by rewrite (combine_query _ _ _ _ _ p).
  - intros k. destruct (p !! k) as [x|] eqn:Hk.
    + by apply lookup_union_Some_l.
    + rewrite lookup_union_r by done. apply to_dict_lookup.
Qed.

Lemma query_flattened_when_merged_witness :
  load_json_query_viewargs_data
    {| json := None; args := Some [("c", "3"); ("c", "4")];
       view_args := Some 0 |} [] path_only_store
  = Some (Some (MultiDictProxy (DictAt (length path_only_store)) []),
          path_only_store
          ++ [{[ "blockchain" := RStr "ETH" ]}
              ∪ to_dict [("c", "3"); ("c", "4")]])
  ∧ ∀ k, (({[ "blockchain" := RStr "ETH" ]} : Dict)
          ∪ to_dict [("c", "3"); ("c", "4")]) !! k
         = match ({[ "blockchain" := RStr "ETH" ]} : Dict) !! k with
           | Some x => Some x
           | None => RStr <$> first_value [("c", "3"); ("c", "4")] k
           end.
Proof.
  apply (query_flattened_when_merged
           {| json := None; args := Some [("c", "3"); ("c", "4")];
              view_args := Some 0 |} [] path_only_store
           [("c", "3"); ("c", "4")] 0 {[ "blockchain" := RStr "ETH" ]});
    done.
Defined.

(** * Properties of the handlers *)

(** ** Repacking of account entries *)

Lemma entry_data_ok entry d :
  BlockchainsAccountsBodies.entry_data entry = Ok d ↔ built_from entry d.
Proof.
  unfold BlockchainsAccountsBodies.entry_data, getitem, built_from.
  destruct d as [a l t]. simpl.
  destruct (entry !! "address") as [a'|], (entry !! "label") as [l'|],
    (entry !! "tags") as [t'|]; simpl; split;
    try intros [= -> -> ->]; try intros ([= ->] & [= ->] & [= ->]);
    try done; intros (? & ? & ?); done.
Qed.

(** X9: the list built for the facade by [put] and [patch] has one record per
    entry, in the order of the entries, each holding the entry's [address],
    [label] and [tags]; and it is built exactly when every entry has those
    three keys. *)
Theorem account_data_ok_iff accounts ds :
  BlockchainsAccountsBodies.account_data accounts = Ok ds
  ↔ Forall2 built_from accounts ds.
Proof.
  revert ds. induction accounts as [|entry rest IH]; intros ds; simpl.
  - split.
    + intros [= <-]. constructor.
    + intros ->%Forall2_nil_inv_l. done.
  - destruct (BlockchainsAccountsBodies.entry_data entry) as [d| |] eqn:Hd;
      simpl.
    + destruct (BlockchainsAccountsBodies.account_data rest) as [ds'| |] eqn:Hr;
        simpl.
      * split.
        -- intros [= <-]. constructor; [by apply entry_data_ok|by apply IH].
        -- intros (d' & ds'' & Hd' & Hds & ->)%Forall2_cons_inv_l.
           apply entry_data_ok in Hd'. apply IH in Hds.
           assert (d = d') as -> by congruence.
           injection Hds as ->. reflexivity.
      * split; [done|].
        intros (d' & ds'' & _ & Hds & ->)%Forall2_cons_inv_l.
        apply IH in Hds. done.
      * split; [done|].
        intros (d' & ds'' & _ & Hds & ->)%Forall2_cons_inv_l.
        apply IH in Hds. done.
    + split; [done|].
      intros (d' & ds'' & Hd' & _ & ->)%Forall2_cons_inv_l.
      apply entry_data_ok in Hd'. congruence.
    + split; [done|].
      intros (d' & ds'' & Hd' & _ & ->)%Forall2_cons_inv_l.
      apply entry_data_ok in Hd'. congruence.
Qed.




(** X11: keys of an entry other than [address], [label] and [tags] do not
    reach the facade: two account lists that agree, entry by entry, on these
    three keys give the same [put], call or raise alike. *)
Theorem put_reads_three_keys blockchain accounts accounts' async_query :
  Forall2 (λ e e', ∀ key, key ∈ ["address"; "label"; "tags"] →
                          e !! key = e' !! key) accounts accounts' →
  BlockchainsAccountsBodies.put blockchain accounts async_query
  = BlockchainsAccountsBodies.put blockchain accounts' async_query.
Proof.
  intros Hall. unfold BlockchainsAccountsBodies.put. f_equal.
  induction Hall as [|e e' rest rest' He _ IH]; [done|]. simpl.
  rewrite IH. f_equal.
  unfold BlockchainsAccountsBodies.entry_data, getitem.
  rewrite <- !He by (apply list_elem_of_In; simpl; tauto). done.
Qed.

Lemma put_reads_three_keys_witness :
  BlockchainsAccountsBodies.put "ETH"
    [ {[ "address" := RStr "0xabc"; "label" := RNull; "tags" := RList [];
         "extra" := RInt 1 ]} ] false
  = BlockchainsAccountsBodies.put "ETH"
      [ {[ "address" := RStr "0xabc"; "label" := RNull; "tags" := RList [] ]} ]
      false.
Proof.
  apply put_reads_three_keys. constructor; [|constructor].
  intros key Hkey. apply list_elem_of_In in Hkey. simpl in Hkey.
  destruct Hkey as [<-|[<-|[<-|[]]]]; by vm_compute.
Defined.

(** ** Choice of the user action *)


(** X13: [UsersByNameResource.patch] logs the user out for every action other
    than none and ['login'], whatever the string is; the handler does not
    itself check that the action is ['logout'], and password, sync approval
    and premium credentials play no part. *)
Theorem patch_logs_out_iff action name password sync_approval key secret n :
  UsersByNameResource.patch action name password sync_approval key secret
  = Ok (Call_user_logout n)
  ↔ n = name ∧ ∃ a, action = Some a ∧ a ≠ "login".
Proof.
  unfold UsersByNameResource.patch.
  destruct action as [a|]; [|split; [done|by intros (_ & ? & ? & _)]].
  destruct (String.eqb a "login") eqn:Ha.
  - apply String.eqb_eq in Ha as ->.
    destruct password; (split; [done|]); by intros (_ & ? & [= <-] & ?).
  - apply String.eqb_neq in Ha. split.
    + intros [= <-]. eauto.
    + by intros (-> & _).
Qed.

(** ** The conditional-request header of the asset icons *)

Lemma substring_prefix e t :
  String.substring 0 (String.length e) (e +:+ t) = e.
Proof. induction e as [|c e IH]; simpl; [by destruct t|by rewrite IH]. Qed.

Lemma length_append e t :
  String.length (e +:+ t) = String.length e + String.length t.
Proof. induction e as [|c e IH]; simpl; [done|by rewrite IH]. Qed.

Lemma slice_enclosed a b e : slice_1_m1 (String a (e +:+ String b "")) = e.
Proof.
  unfold slice_1_m1. simpl. rewrite length_append. simpl.
  replace (String.length e + 1 - 1) with (String.length e) by lia.
  apply substring_prefix.
Qed.

(** X14: the header value handed to the facade is the chosen header without
    its first and last character, whatever these are: a quoted etag comes out
    unquoted.  The chosen header is If-Match, or If-None-Match when If-Match
    is absent or empty. *)
Theorem enclosing_characters_dropped headers asset size a b e :
  If_Match headers = Some (String a (e +:+ String b ""))
  ∨ (truth (If_Match headers) = false
     ∧ If_None_Match headers = Some (String a (e +:+ String b ""))) →
  AssetIconsResource.get headers asset size
  = Call_get_asset_icon asset size (Some e).
Proof.
  unfold AssetIconsResource.get.
  intros [Hm|[Hm Hn]]; rewrite Hm; cbn [truth negb String.eqb]; [|rewrite Hn];
    cbn [truth negb String.eqb Ascii.eqb fmap option_fmap option_map];
    by rewrite slice_enclosed.
Qed.

Lemma enclosing_characters_dropped_witness :
  AssetIconsResource.get
    {| If_Match := Some ""; If_None_Match := Some "'abc'" |} "ETH" "small"
  = Call_get_asset_icon "ETH" "small" (Some "abc").
Proof.
  apply (enclosing_characters_dropped
           {| If_Match := Some ""; If_None_Match := Some "'abc'" |}
           "ETH" "small" "'" "'" "abc").
  right. by split.
Defined.

(** X15: the facade gets no header value exactly when If-Match is absent or
    empty and If-None-Match is absent; a header of one or two characters
    still yields a value, the empty string. *)
Theorem no_header_iff headers asset size :
  match_header_of (AssetIconsResource.get headers asset size) = None
  ↔ truth (If_Match headers) = false ∧ If_None_Match headers = None.
Proof.
  unfold AssetIconsResource.get. simpl.
  destruct (truth (If_Match headers)) eqn:Hm; simpl.
  - rewrite Hm. destruct (If_Match headers); [|done]. simpl.
    split; [done|by intros [? _]].
  - destruct (If_None_Match headers) as [s|]; [|by split].
    destruct (truth (Some s)); simpl; (split; [done|]); by intros [_ ?].
Qed.
